(** * aggrefiles: the aggregator of [src/aggrefiles/__main__.py]

    A shallow embedding of [aggregate_files], and of the preparation of the
    extension filter in [main], over a model of the file system as a finite
    map from absolute paths to entries.  The file operations change the map
    or raise, and [aggregate_files] is a computation in the state and error
    monad [M] below.  [main] is embedded from the parsed arguments on, the
    process being in a directory [cwd].

    Modelling choices, fixed here once:
    - a Python [str] is a Rocq [string]; characters are compared by their
      code, and [str.lower] acts on the letters [A]-[Z] (names and filters
      are taken in ASCII: on an ASCII string this is what Python's
      [str.lower] does, on other strings Python lowers more letters, and a
      statement that depends on it is made for strings on which
      [Str.isascii] holds);
    - a resolved [Path] is the list of its components below [/]; Python
      orders paths by that list ([PurePath.__lt__] compares [_cparts]);
    - symbolic links are absent, so [Path.resolve] is the identity on the
      paths handled here;
    - the content of a regular file is kept as the text that
      [read_text(encoding="utf-8", errors="replace")] returns for it, and
      what a run writes is kept as the text passed to [write]: the codec and
      the newline translation of text mode lie below the model; a file whose
      reading raises carries the message of the exception;
    - the ignore matcher ([pathspec], not part of this repository) is a
      parameter: an optional predicate on relative path strings;
    - the messages printed on the console are not part of the state;
    - permissions are not modelled: a directory that is there can be
      written to, a regular file that is there can be truncated; an entry
      that is neither a regular file nor a directory is one that cannot be
      opened (a socket), devices and FIFOs are absent;
    - a [Path] that [main] builds from an argument is kept unresolved, as
      pathlib keeps it: whether it is absolute, and its components, [.] and
      empty ones dropped, [..] kept (a leading [//] is read as [/]); the
      operating system follows such a path through directories that exist,
      [Path.resolve] follows it by name alone;
    - [argparse] lies below the model ([main] starts from the namespace it
      returns), and no [KeyboardInterrupt] is raised. *)

From Stdlib Require Import Strings.String Strings.Ascii.
From stdpp Require Import base option list gmap strings sorting.

(** ** Python strings *)

Module Str.

(** [c.lower()] on one character: the letters [A]-[Z] move to [a]-[z]. *)
Definition lower_char (c : ascii) : ascii :=
  let n := Ascii.nat_of_ascii c in
  if (65 <=? n) && (n <=? 90) then Ascii.ascii_of_nat (n + 32) else c.

(** [s.lower()] *)
Fixpoint lower (s : string) : string :=
  match s with
  | EmptyString => EmptyString
  | String c s' => String (lower_char c) (lower s')
  end.

(** [s.startswith(p)] *)
Definition startswith (p s : string) : bool := String.prefix p s.

(** [s.endswith(suf)]: some tail of [s] is [suf]. *)
Fixpoint endswith (suf s : string) : bool :=
  if String.eqb s suf then true
  else match s with
       | EmptyString => false
       | String _ s' => endswith suf s'
       end.

(** [s.rfind(c)] for a single character; [None] stands for [-1]. *)
Fixpoint rfind (c : ascii) (s : string) : option nat :=
  match s with
  | EmptyString => None
  | String a s' =>
      match rfind c s' with
      | Some i => Some (S i)
      | None => if Ascii.eqb a c then Some 0 else None
      end
  end.

(** [s[i:]] *)
Fixpoint drop (i : nat) (s : string) : string :=
  match i, s with
  | O, _ => s
  | S _, EmptyString => EmptyString
  | S i', String _ s' => drop i' s'
  end.

(** the string ["\n"] *)
Definition newline : string := String "010"%char EmptyString.

(** [c * n] *)
Fixpoint replicate (n : nat) (c : ascii) : string :=
  match n with
  | O => EmptyString
  | S n' => String c (replicate n' c)
  end.

(** [sep.join(parts)] *)
Definition join (sep : string) (parts : list string) : string :=
  String.concat sep parts.

(** number of occurrences of a character *)
Fixpoint count (c : ascii) (s : string) : nat :=
  match s with
  | EmptyString => 0
  | String a s' => (if Ascii.eqb a c then 1 else 0) + count c s'
  end.

(** [sub in s] *)
Fixpoint contains (sub s : string) : bool :=
  if String.prefix sub s then true
  else match s with
       | EmptyString => false
       | String _ s' => contains sub s'
       end.

(** [s.split(sep)] for a non-empty [sep]: the pieces between the leftmost
    non-overlapping occurrences of [sep].  [skip] counts the characters of
    an occurrence still to be passed over, [cur] is the piece being read,
    in reverse. *)
Fixpoint split_go (sep : string) (skip : nat) (cur : string) (s : string)
  : list string :=
  match s with
  | EmptyString => [String.rev cur]
  | String c s' =>
      match skip with
      | S k => split_go sep k cur s'
      | O =>
          if String.prefix sep s
          then String.rev cur :: split_go sep (String.length sep - 1) "" s'
          else split_go sep 0 (String c cur) s'
      end
  end.

Definition split (sep s : string) : list string := split_go sep 0 "" s.

(** [s.isascii()] *)
Fixpoint isascii (s : string) : bool :=
  match s with
  | EmptyString => true
  | String c s' => (Ascii.nat_of_ascii c <? 128) && isascii s'
  end.

End Str.

(** ** Paths *)

(** A resolved absolute path: its components below the file-system root. *)
Abbreviation path := (list string).

Module Path.

(** [p.name]: the final component, [""] for the root. *)
Definition name (p : path) : string := default "" (last p).

(** [p.parent]; the root is its own parent. *)
Definition parent (p : path) : path := take (length p - 1) p.

(** [p.suffix], as pathlib defines it:
    [i = name.rfind('.')], and [name[i:]] when [0 < i < len(name) - 1]. *)
Definition suffix (p : path) : string :=
  let name := name p in
  match Str.rfind "."%char name with
  | Some i =>
      if (0 <? i) && (i <? String.length name - 1)
      then Str.drop i name else ""
  | None => ""
  end.

(** [p.relative_to(root)] for a path [p] below [root], the only use made of
    it: [rglob] yields nothing else. *)
Definition relative_to (root p : path) : path := drop (length root) p.

(** [p.as_posix()] of a relative path; the empty one prints as a dot. *)
Definition as_posix (rel : path) : string :=
  match rel with
  | [] => "."
  | _ => Str.join "/" rel
  end.

(** [p <= q] on paths: Python compares the lists of components, and each
    component as a string. *)
Fixpoint leb (p q : path) : bool :=
  match p, q with
  | [], _ => true
  | _ :: _, [] => false
  | a :: p', b :: q' =>
      if String.eqb a b then leb p' q' else String.leb a b
  end.

Definition le (p q : path) : Prop := leb p q.

(** [root] is a proper ancestor of [p]. *)
Definition below (root p : path) : bool :=
  bool_decide (take (length root) p = root) && (length root <? length p).

End Path.

(** ** The file system *)

(** A regular file: [text] is what [read_text] returns for it; when
    [read_error] is [Some msg], opening or reading it raises an exception
    whose [str] is [msg]. *)
Record file := File { text : string; read_error : option string }.

(** An entry of the file system; [ESpecial] stands for what is neither a
    regular file nor a directory and cannot be opened (a socket); devices
    and FIFOs, which can be opened, are not among the entries. *)
Inductive entry :=
| EFile (f : file)
| EDir
| ESpecial.

Abbreviation filesystem := (gmap path entry).

(** The exceptions the file operations raise. *)
Inductive exn :=
| FileNotFoundError
| FileExistsError
| NotADirectoryError
| IsADirectoryError
| OSError (msg : string).

(** [str(exc)]; for the built-in errors only the [strerror] part is kept. *)
Definition exn_str (e : exn) : string :=
  match e with
  | FileNotFoundError => "[Errno 2] No such file or directory"
  | FileExistsError => "[Errno 17] File exists"
  | NotADirectoryError => "[Errno 20] Not a directory"
  | IsADirectoryError => "[Errno 21] Is a directory"
  | OSError msg => msg
  end.

(** ** Computations on the file system that may raise *)

Inductive result (A : Type) :=
| Ok (a : A)
| Raise (e : exn).
Arguments Ok {A} a.
Arguments Raise {A} e.

Definition M (A : Type) : Type := filesystem → result A * filesystem.

Definition ret {A} (a : A) : M A := λ fs, (Ok a, fs).

Definition bind {A B} (m : M A) (k : A → M B) : M B := λ fs,
  match m fs with
  | (Ok a, fs') => k a fs'
  | (Raise e, fs') => (Raise e, fs')
  end.

Definition raise {A} (e : exn) : M A := λ fs, (Raise e, fs).

(** [try: m except Exception as e: h e] *)
Definition try_except {A} (m : M A) (h : exn → M A) : M A := λ fs,
  match m fs with
  | (Ok a, fs') => (Ok a, fs')
  | (Raise e, fs') => h e fs'
  end.

(** a read-only query of the state *)
Definition gets {A} (f : filesystem → A) : M A := λ fs, (Ok (f fs), fs).

Declare Scope fs_scope.
Delimit Scope fs_scope with fs.
Bind Scope fs_scope with M.
Notation "x ← y ; z" := (bind y (λ x, z))
  (at level 20, y at level 100, z at level 200, only parsing) : fs_scope.
Notation "x ;; z" := (bind x (λ _, z))
  (at level 100, z at level 200, only parsing, right associativity) : fs_scope.
Local Open Scope fs_scope.

(** ** File operations *)

Definition is_dir (fs : filesystem) (p : path) : bool :=
  match fs !! p with Some EDir => true | _ => false end.

Definition is_file (fs : filesystem) (p : path) : bool :=
  match fs !! p with Some (EFile _) => true | _ => false end.

(** [os.mkdir(d)] *)
Definition os_mkdir (d : path) : M unit := λ fs,
  match fs !! d with
  | Some _ => (Raise FileExistsError, fs)
  | None =>
      match fs !! Path.parent d with
      | Some EDir => (Ok tt, <[d := EDir]> fs)
      | Some _ => (Raise NotADirectoryError, fs)
      | None => (Raise FileNotFoundError, fs)
      end
  end.

(** [d.mkdir(parents=False, exist_ok=True)] *)
Definition mkdir_exist_ok (d : path) : M unit :=
  try_except (os_mkdir d) (λ e,
    match e with
    | FileNotFoundError => raise e
    | _ => b ← gets (λ fs, is_dir fs d); if b then ret tt else raise e
    end).

(** [d.mkdir(parents=True, exist_ok=True)], by recursion on the components
    of [d] read from the last one: [rd] is [d] reversed. *)
Fixpoint mkdir_parents_rev (rd : list string) : M unit :=
  let d := reverse rd in
  try_except (os_mkdir d) (λ e,
    match e with
    | FileNotFoundError =>
        match rd with
        | [] => raise e
        | _ :: rparent =>
            mkdir_parents_rev rparent ;;
            mkdir_exist_ok d
        end
    | _ => b ← gets (λ fs, is_dir fs d); if b then ret tt else raise e
    end).

Definition mkdir_parents (d : path) : M unit := mkdir_parents_rev (reverse d).

(** [p.open("w")]: truncate or create. *)
Definition open_w (p : path) : M unit := λ fs,
  match fs !! p with
  | Some (EFile f) => (Ok tt, <[p := EFile (File "" (read_error f))]> fs)
  | Some EDir => (Raise IsADirectoryError, fs)
  | Some ESpecial => (Raise (OSError "[Errno 6] No such device or address"), fs)
  | None =>
      match fs !! Path.parent p with
      | Some EDir => (Ok tt, <[p := EFile (File "" None)]> fs)
      | Some _ => (Raise NotADirectoryError, fs)
      | None => (Raise FileNotFoundError, fs)
      end
  end.

(** [out_f.write(s)] on the file opened at [p]. *)
Definition write (p : path) (s : string) : M unit := λ fs,
  match fs !! p with
  | Some (EFile f) => (Ok tt, <[p := EFile (File (text f +:+ s) (read_error f))]> fs)
  | _ => (Ok tt, fs)
  end.

(** [p.read_text(encoding="utf-8", errors="replace")] *)
Definition read_text (p : path) : M string := λ fs,
  match fs !! p with
  | Some (EFile f) =>
      match read_error f with
      | None => (Ok (text f), fs)
      | Some msg => (Raise (OSError msg), fs)
      end
  | Some EDir => (Raise IsADirectoryError, fs)
  | Some ESpecial => (Raise (OSError "[Errno 6] No such device or address"), fs)
  | None => (Raise FileNotFoundError, fs)
  end.

(** [root.rglob("*")]: every entry below [root] that is reached through
    directories only; nothing when [root] is not a directory.  The order of
    enumeration is the file system's. *)
Definition reachable (fs : filesystem) (root p : path) : bool :=
  Path.below root p &&
  forallb (λ k, is_dir fs (take k p)) (seq (length root) (length p - length root)).

Definition rglob (fs : filesystem) (root : path) : list path :=
  filter (λ p, reachable fs root p) (map_to_list fs).*1.

(** ** The aggregator *)

(** [gitignore_spec is not None and gitignore_spec.match_file(rel)] *)
Definition matched (gitignore_spec : option (string → bool)) (rel : string) : bool :=
  match gitignore_spec with
  | Some match_file => match_file rel
  | None => false
  end.

Definition separator : string := Str.replicate 80 "-"%char.

(** One turn of the loop over [root.rglob("*")]. *)
Definition visit (fs : filesystem) (root : path) (ext : string) (output : path)
    (gitignore_spec : option (string → bool)) (files : list path) (p : path)
  : list path :=
  if matched gitignore_spec (Path.as_posix (Path.relative_to root p)) then files
  else if is_file fs p && String.eqb (Str.lower (Path.suffix p)) ext then
    if bool_decide (p = output) then files
    else files ++ [p]
  else files.

(** The list [files] when the loop ends; [ext] is already lowered. *)
Definition collect (fs : filesystem) (root : path) (ext : string) (output : path)
    (gitignore_spec : option (string → bool)) : list path :=
  foldl (visit fs root ext output gitignore_spec) [] (rglob fs root).

Global Instance path_le_dec : RelDecision Path.le.
Proof. intros p q. unfold Path.le. apply _. Defined.

(** The list [files] after [files.sort()]. *)
Definition sorted_files (fs : filesystem) (root : path) (ext : string)
    (output : path) (gitignore_spec : option (string → bool)) : list path :=
  merge_sort Path.le (collect fs root ext output gitignore_spec).

(** The body of the loop that writes one file. *)
Definition write_one (root output file_path : path) : M unit :=
  let rel_path := Path.as_posix (Path.relative_to root file_path) in
  write output (rel_path +:+ Str.newline) ;;
  content ← try_except (read_text file_path)
               (λ exc, ret ("[Error reading file: " +:+ exn_str exc +:+ "]"));
  write output content ;;
  (if negb (Str.endswith Str.newline content) then write output Str.newline
   else ret tt) ;;
  write output (separator +:+ Str.newline +:+ Str.newline).

Fixpoint write_all (root output : path) (files : list path) : M unit :=
  match files with
  | [] => ret tt
  | file_path :: rest =>
      write_one root output file_path ;;
      write_all root output rest
  end.

Definition aggregate_files (root : path) (ext : string) (output : path)
    (gitignore_spec : option (string → bool)) : M nat :=
  let ext := Str.lower ext in
  files ← gets (λ fs, sorted_files fs root ext output gitignore_spec);
  match files with
  | [] => ret 0
  | _ :: _ =>
      mkdir_parents (Path.parent output) ;;
      open_w output ;;
      write_all root output files ;;
      ret (length files)
  end.

(** The extension filter that [main] passes on: a leading dot is added when
    the argument has none. *)
Definition main_ext (ext : string) : string :=
  if negb (Str.startswith "." ext) then "." +:+ ext else ext.

(** ** Notions the statements use *)

(** The test a path passes to be appended to [files]. *)
Definition keep (fs : filesystem) (root : path) (ext : string) (output : path)
    (gitignore_spec : option (string → bool)) (p : path) : bool :=
  negb (matched gitignore_spec (Path.as_posix (Path.relative_to root p)))
  && is_file fs p
  && String.eqb (Str.lower (Path.suffix p)) ext
  && negb (bool_decide (p = output)).

(** The text that stands for the content of [p]: what [read_text] returns,
    or the marker naming the exception it raised. *)
Definition content_of (fs : filesystem) (p : path) : string :=
  match read_text p fs with
  | (Ok content, _) => content
  | (Raise exc, _) => "[Error reading file: " +:+ exn_str exc +:+ "]"
  end.

(** The block of one file, in the words of the specification: the relative
    path and a newline, the content, a newline unless the content ends with
    one, the line of 80 dashes and one blank line. *)
Definition file_block (fs : filesystem) (root p : path) : string :=
  Path.as_posix (Path.relative_to root p) +:+ Str.newline
  +:+ content_of fs p
  +:+ (if Str.endswith Str.newline (content_of fs p) then "" else Str.newline)
  +:+ Str.replicate 80 "-" +:+ Str.newline +:+ Str.newline.

(** What [mkdir(parents=True, exist_ok=True)] does: on failure nothing has
    changed; on success the directory exists, every entry is kept and the new
    entries are directories on the way to it. *)
Definition mkdir_post (d : path) (fs : filesystem) (r : result unit)
    (fs' : filesystem) : Prop :=
  match r with
  | Raise _ => fs' = fs
  | Ok _ =>
      is_dir fs' d ∧
      (∀ q e, fs !! q = Some e → fs' !! q = Some e) ∧
      (∀ q, fs !! q = None →
            fs' !! q = None ∨ (fs' !! q = Some EDir ∧ q `prefix_of` d))
  end.

(** A file system is well formed when every entry lies in directories: each
    proper prefix of its path is a directory. *)
Definition fs_wf (fs : filesystem) : bool :=
  forallb (λ p, forallb (λ k, is_dir fs (take k p)) (seq 0 (length p)))
          (map_to_list fs).*1.

(** a run of [n] dashes at the head of [s] *)
Fixpoint dashes (n : nat) (s : string) : bool :=
  match n, s with
  | O, _ => true
  | S n', String c s' => Ascii.eqb c "-" && dashes n' s'
  | S _, EmptyString => false
  end.

(** What is written after each file: the line of dashes and the blank line. *)
Definition block_sep : string := separator +:+ Str.newline +:+ Str.newline.

(** [s.partition("\n")[0]] and [s.partition("\n")[2]] *)
Fixpoint first_line (s : string) : string :=
  match s with
  | EmptyString => EmptyString
  | String c s' => if Ascii.eqb c "010" then EmptyString else String c (first_line s')
  end.

Fixpoint after_first_line (s : string) : string :=
  match s with
  | EmptyString => EmptyString
  | String c s' => if Ascii.eqb c "010" then s' else after_first_line s'
  end.

(** The content with a final newline ensured. *)
Definition with_final_newline (content : string) : string :=
  content +:+ (if Str.endswith Str.newline content then "" else Str.newline).

(** The round trip, in the words of the specification: splitting the output
    at the separator gives one piece per file (and the empty piece after the
    last separator); the first line of a piece is the relative path, the
    rest is the content. *)
Definition round_trip (fs : filesystem) (root : path) (files : list path)
    (out : string) : Prop :=
  ∃ pieces,
    Str.split block_sep out = pieces ++ [""] ∧
    Forall2 (λ p piece,
               first_line piece = Path.as_posix (Path.relative_to root p) ∧
               after_first_line piece = with_final_newline (content_of fs p))
            files pieces.

(** The text of the regular file at [p], empty when there is none. *)
Definition text_at (fs : filesystem) (p : path) : string :=
  match fs !! p with
  | Some (EFile f) => text f
  | _ => ""
  end.

(** ** Example file systems *)

Module Ex.

Definition root : path := ["r"].
Definition output : path := ["r"; "aggregated.txt"].

(** The scenario of the specification, with an output left by an earlier
    run and one file that cannot be read. *)
Definition scenario : filesystem :=
  list_to_map
    [ ([], EDir); (["r"], EDir);
      (["r"; "a.txt"], EFile (File "hello" None));
      (["r"; "sub"], EDir);
      (["r"; "sub"; "b.txt"], EFile (File ("world" +:+ Str.newline) None));
      (["r"; "ignore.txt"], EFile (File "secret" None));
      (["r"; "locked.TXT"], EFile (File "" (Some "[Errno 13] Permission denied")));
      (["r"; "notes.md"], EFile (File "# notes" None));
      (["r"; "aggregated.txt"], EFile (File "old output" None)) ].

Definition ignore_spec : option (string → bool) := Some (String.eqb "ignore.txt").

(** A directory and a file whose names start alike. *)
Definition nested : filesystem :=
  list_to_map
    [ ([], EDir); (["r"], EDir); (["r"; "a"], EDir);
      (["r"; "a"; "b.txt"], EFile (File "1" None));
      (["r"; "a.txt"], EFile (File "2" None)) ].

(** A file whose content holds the separator. *)
Definition dashed : filesystem :=
  list_to_map
    [ ([], EDir); (["r"], EDir);
      (["r"; "a.txt"],
       EFile (File (separator +:+ Str.newline +:+ Str.newline +:+ "x") None)) ].

(** An ignored directory with two files in it. *)
Definition build : filesystem :=
  list_to_map
    [ ([], EDir); (["r"], EDir); (["r"; "build"], EDir);
      (["r"; "build"; "keep.txt"], EFile (File "kept" None));
      (["r"; "build"; "other.txt"], EFile (File "dropped" None)) ].

(** The matcher of the patterns [build] and [!build/keep.txt]: the
    directory and what lies below it match, the file of the negation
    apart. *)
Definition build_but_keep : option (string → bool) :=
  Some (λ rel, (String.eqb rel "build" || String.prefix "build/" rel)
               && negb (String.eqb rel "build/keep.txt")).

(** The matcher of the pattern [build/]: what lies below the directory
    matches. *)
Definition build_tree : option (string → bool) := Some (String.prefix "build/").

(** A dot file named like the filter. *)
Definition dotfile : filesystem :=
  list_to_map
    [ ([], EDir); (["r"], EDir);
      (["r"; ".txt"], EFile (File "hidden" None));
      (["r"; "pkg.tar.gz"], EFile (File "archive" None)) ].

End Ex.

(** The order the specification words: by the relative path strings. *)
Definition posix_sorted (root : path) (files : list path) : Prop :=
  StronglySorted String.le (Path.as_posix ∘ Path.relative_to root <$> files).

(** The aggregator itself ensuring the leading dot, as the specification
    words it: a filter without the dot gives the run of the filter with it. *)
Definition dot_optional (root output : path)
    (gitignore_spec : option (string → bool)) (fs : filesystem) : Prop :=
  ∀ ext, Str.startswith "." ext = false →
    aggregate_files root ext output gitignore_spec fs
    = aggregate_files root ("." +:+ ext) output gitignore_spec fs.

(** Pruning, as the specification words it: no file below a directory whose
    relative path the matcher matches is a candidate. *)
Definition prunes (fs : filesystem) (root : path) (ext : string) (output : path)
    (gitignore_spec : option (string → bool)) : Prop :=
  ∀ d p, is_dir fs d →
    matched gitignore_spec (Path.as_posix (Path.relative_to root d)) = true →
    Path.below d p →
    p ∉ sorted_files fs root ext output gitignore_spec.

(** ** Paths as [main] handles them, before [resolve] *)

(** A [Path] built from a string: whether it starts at [/], and its
    components, [.] and the empty ones dropped, [..] kept. *)
Record pure_path := PurePath { absolute : bool; parts : list string }.

Module Pure.

(** [Path(s)] *)
Definition parse (s : string) : pure_path :=
  {| absolute := Str.startswith "/" s;
     parts := filter (λ c, c ≠ "" ∧ c ≠ ".") (Str.split "/" s) |}.

(** [p / q] *)
Definition div (p q : pure_path) : pure_path :=
  if absolute q then q
  else {| absolute := absolute p; parts := parts p ++ parts q |}.

(** One component followed from the directory [cur]. *)
Definition step (cur : path) (c : string) : path :=
  if String.eqb c ".." then Path.parent cur else cur ++ [c].

(** [p.resolve()], the process being in the directory [cwd]: without
    symbolic links the components are followed one by one, present or not. *)
Definition resolve (cwd : path) (p : pure_path) : path :=
  foldl step (if absolute p then [] else cwd) (parts p).

(** Where the operating system arrives when it follows the components from
    the directory [cur]: every component is looked up in a directory. *)
Fixpoint walk (fs : filesystem) (cur : path) (cs : list string) : option path :=
  match cs with
  | [] => Some cur
  | c :: cs' => if is_dir fs cur then walk fs (step cur c) cs' else None
  end.

(** The entry that [stat] finds for [p], if any. *)
Definition locate (fs : filesystem) (cwd : path) (p : pure_path) : option path :=
  walk fs (if absolute p then [] else cwd) (parts p).

(** [p.is_file()] *)
Definition is_file (fs : filesystem) (cwd : path) (p : pure_path) : bool :=
  match locate fs cwd p with
  | Some q => is_file fs q
  | None => false
  end.

(** The text read through [p.open("r", encoding="utf-8", errors="replace")]. *)
Definition read (cwd : path) (p : pure_path) : M string := λ fs,
  match locate fs cwd p with
  | Some q => read_text q fs
  | None => (Raise FileNotFoundError, fs)
  end.

End Pure.

(** ** The command line *)

(** The namespace that [parse_args] returns. *)
Record args := Args {
  arg_root : string;
  arg_ext : string;
  arg_output : option string;
  arg_gitignore : string
}.

(** The defaults of the parser. *)
Definition default_args : args :=
  {| arg_root := "."; arg_ext := ".txt"; arg_output := None;
     arg_gitignore := ".gitignore" |}.

(** [out_path] *)
Definition main_out_path (root : pure_path) (ext : string) (output : option string)
  : pure_path :=
  match output with
  | Some (String c o) =>
      let out_path := Pure.parse (String c o) in
      if negb (absolute out_path) then Pure.div root out_path else out_path
  | _ => Pure.div root (Pure.parse ("aggregated" +:+ ext))
  end.

(** [gitignore_path] *)
Definition main_gitignore_path (root : pure_path) (gitignore : string) : pure_path :=
  let gitignore_path := Pure.parse gitignore in
  if negb (absolute gitignore_path) then Pure.div root gitignore_path
  else gitignore_path.

(** The matcher that [main] builds; [from_lines] stands for
    [pathspec.PathSpec.from_lines("gitwildmatch", f)] on the text of the
    file. *)
Definition main_gitignore_spec (from_lines : string → result (string → bool))
    (cwd : path) (root : pure_path) (gitignore : string)
  : M (option (string → bool)) :=
  match gitignore with
  | EmptyString => ret None
  | String _ _ =>
      let gitignore_path := main_gitignore_path root gitignore in
      found ← gets (λ fs, Pure.is_file fs cwd gitignore_path);
      if found then
        text ← Pure.read cwd gitignore_path;
        match from_lines text with
        | Ok spec => ret (Some spec)
        | Raise e => raise e
        end
      else ret None
  end.

(** [main], from the parsed arguments on. *)
Definition main (from_lines : string → result (string → bool)) (cwd : path)
    (a : args) : M unit :=
  let root := Pure.parse (arg_root a) in
  let ext := main_ext (arg_ext a) in
  let out_path := main_out_path root ext (arg_output a) in
  gitignore_spec ← main_gitignore_spec from_lines cwd root (arg_gitignore a);
  aggregate_files (Pure.resolve cwd root) ext (Pure.resolve cwd out_path) gitignore_spec ;;
  ret tt.

(** ** Notions the further statements use *)

(** The output has no place to go: it is a directory, or one of its proper
    ancestors is there and is not a directory. *)
Definition blocked (fs : filesystem) (output : path) : bool :=
  is_dir fs output
  || existsb (λ k, bool_decide (is_Some (fs !! take k output))
                   && negb (is_dir fs (take k output)))
             (seq 0 (length output)).

(** A filter that a suffix can be equal to: a dot, then one character or
    more, none of them a dot. *)
Definition suffix_like (s : string) : bool :=
  match s with
  | String c e =>
      Ascii.eqb c "." && negb (String.eqb e "") && (Str.count "." e =? 0)
  | EmptyString => false
  end.

(** The path that [main] joins to the root to place the output. *)
Definition main_out_arg (ext : string) (output : option string) : pure_path :=
  match output with
  | Some (String c o) => Pure.parse (String c o)
  | _ => Pure.parse ("aggregated" +:+ ext)
  end.

(** What [main] makes of the entry found at the path of the ignore file. *)
Definition spec_of (from_lines : string → result (string → bool))
    (e : option entry) : result (option (string → bool)) :=
  match e with
  | Some (EFile f) =>
      match read_error f with
      | Some msg => Raise (OSError msg)
      | None =>
          match from_lines (text f) with
          | Ok spec => Ok (Some spec)
          | Raise e => Raise e
          end
      end
  | _ => Ok None
  end.

(** The arguments [a] with another root. *)
Definition with_root (a : args) (root : string) : args :=
  {| arg_root := root; arg_ext := arg_ext a; arg_output := arg_output a;
     arg_gitignore := arg_gitignore a |}.

(** The arguments [a] with another filter. *)
Definition with_ext (a : args) (ext : string) : args :=
  {| arg_root := arg_root a; arg_ext := ext; arg_output := arg_output a;
     arg_gitignore := arg_gitignore a |}.

(** ** Example command lines *)

Module ExMain.

(** The directory the process is in. *)
Definition cwd : path := ["w"].

(** A stand-in for [pathspec]: a path is matched when it is a line of the
    ignore file. *)
Definition from_lines (text : string) : result (string → bool) :=
  Ok (λ rel, bool_decide (rel ∈ Str.split Str.newline text)).

Definition tree : filesystem :=
  list_to_map
    [ ([], EDir); (["w"], EDir); (["w"; "r"], EDir);
      (["w"; "r"; ".gitignore"], EFile (File ("skip.txt" +:+ Str.newline) None));
      (["w"; "r"; "a.txt"], EFile (File "hello" None));
      (["w"; "r"; "skip.txt"], EFile (File "secret" None)) ].

(** [aggrefiles r -e txt] *)
Definition plain : args :=
  {| arg_root := "r"; arg_ext := "txt"; arg_output := None;
     arg_gitignore := ".gitignore" |}.

(** [aggrefiles /w/r -e txt -o out/all.txt] *)
Definition rooted : args :=
  {| arg_root := "/w/r"; arg_ext := "txt"; arg_output := Some "out/all.txt";
     arg_gitignore := ".gitignore" |}.

(** [aggrefiles r -e txt -o a.txt/all.txt]: the output below a regular
    file. *)
Definition blocked : args :=
  {| arg_root := "r"; arg_ext := "txt"; arg_output := Some "a.txt/all.txt";
     arg_gitignore := ".gitignore" |}.

End ExMain.

(** * Proofs *)

(** ** The order on paths *)

Section path_order.

Lemma path_leb_refl p : Path.leb p p = true.
Proof. induction p as [|a p IH]; simpl; [done|]. by rewrite String.eqb_refl. Qed.

Global Instance path_le_refl : Reflexive Path.le.
Proof. intros p. unfold Path.le. by rewrite path_leb_refl. Qed.

Global Instance path_le_total : Total Path.le.
Proof.
  unfold Path.le. intros p. induction p as [|a p IH]; intros [|b q]; simpl; auto.
  rewrite (String.eqb_sym b a). destruct (String.eqb a b); [apply IH|].
  destruct (String.leb_total a b) as [->| ->]; auto.
Qed.

Global Instance path_le_antisym : AntiSymm (=) Path.le.
Proof.
  unfold Path.le. intros p. induction p as [|a p IH]; intros [|b q]; simpl; try done.
  rewrite (String.eqb_sym b a). destruct (String.eqb_spec a b) as [->|Hne].
  - intros ??. f_equal. by apply IH.
  - intros ?%Is_true_true ?%Is_true_true. destruct Hne. by apply String.leb_antisym.
Qed.

Global Instance path_le_trans : Transitive Path.le.
Proof.
  unfold Path.le. intros p. induction p as [|a p IH]; intros [|b q] [|c r]; simpl; try done.
  destruct (String.eqb_spec a b) as [->|Hab].
  { destruct (String.eqb_spec b c) as [->|Hbc]; [apply IH|done]. }
  destruct (String.eqb_spec b c) as [->|Hbc].
  { intros ? _. by destruct (String.eqb_spec a c). }
  intros Hle1 Hle2. destruct (String.eqb_spec a c) as [->|Hac].
  - destruct Hab. by apply (anti_symm String.le).
  - by apply (transitivity (R:=String.le) Hle1 Hle2).
Qed.

End path_order.

(** ** The candidate list *)

Section candidates.
Context (fs : filesystem) (root : path) (ext : string) (output : path)
        (gitignore_spec : option (string → bool)).

Lemma visit_keep files p :
  visit fs root ext output gitignore_spec files p
  = (files ++ (if keep fs root ext output gitignore_spec p then [p] else []))%list.
Proof.
  unfold visit, keep.
  destruct (matched _ _); simpl; [by rewrite app_nil_r|].
  destruct (is_file fs p); simpl; [|by rewrite app_nil_r].
  destruct (String.eqb _ ext); simpl; [|by rewrite app_nil_r].
  destruct (bool_decide (p = output)); simpl; [by rewrite app_nil_r|done].
Qed.

Lemma foldl_visit l files :
  foldl (visit fs root ext output gitignore_spec) files l
  = (files ++ filter (λ p, keep fs root ext output gitignore_spec p) l)%list.
Proof.
  revert files. induction l as [|p l IH]; intros files; simpl.
  { by rewrite app_nil_r. }
  rewrite IH, visit_keep, filter_cons.
  destruct (keep fs root ext output gitignore_spec p); simpl.
  - by rewrite <-app_assoc.
  - by rewrite app_nil_r.
Qed.

Lemma collect_filter :
  collect fs root ext output gitignore_spec
  = filter (λ p, keep fs root ext output gitignore_spec p) (rglob fs root).
Proof. unfold collect. by rewrite foldl_visit. Qed.

Lemma elem_of_rglob p :
  p ∈ rglob fs root ↔ reachable fs root p ∧ is_Some (fs !! p).
Proof.
  unfold rglob. rewrite list_elem_of_filter, list_elem_of_fmap.
  split; intros [Hr Hp]; split; try done.
  - destruct Hp as ([q e] & -> & ?%elem_of_map_to_list). eauto.
  - destruct Hp as [e He]. exists (p, e). by rewrite elem_of_map_to_list.
Qed.

Lemma NoDup_rglob : NoDup (rglob fs root).
Proof. apply NoDup_filter, NoDup_fst_map_to_list. Qed.

Lemma sorted_files_perm :
  sorted_files fs root ext output gitignore_spec
  ≡ₚ filter (λ p, keep fs root ext output gitignore_spec p) (rglob fs root).
Proof. unfold sorted_files. by rewrite merge_sort_Permutation, collect_filter. Qed.

Lemma elem_of_sorted_files p :
  p ∈ sorted_files fs root ext output gitignore_spec
  ↔ keep fs root ext output gitignore_spec p ∧ p ∈ rglob fs root.
Proof. by rewrite sorted_files_perm, list_elem_of_filter. Qed.

Lemma NoDup_sorted_files : NoDup (sorted_files fs root ext output gitignore_spec).
Proof. rewrite sorted_files_perm. apply NoDup_filter, NoDup_rglob. Qed.

Lemma sorted_files_sorted :
  StronglySorted Path.le (sorted_files fs root ext output gitignore_spec).
Proof. apply (StronglySorted_merge_sort _). Qed.

End candidates.

Lemma reachable_spec (fs : filesystem) (root p : path) :
  reachable fs root p ↔
    (∃ rel, rel ≠ [] ∧ p = (root ++ rel)%list) ∧
    ∀ k, length root ≤ k < length p → is_dir fs (take k p).
Proof.
  unfold reachable, Path.below.
  rewrite !andb_True, bool_decide_spec, forallb_True, Forall_seq.
  rewrite Is_true_true, Nat.ltb_lt.
  split.
  - intros [[Ht Hl] Hd]. split.
    + exists (drop (length root) p). split.
      * intros Hnil. apply (f_equal length) in Hnil. rewrite length_drop in Hnil.
        simpl in Hnil. lia.
      * by rewrite <-Ht at 1; rewrite take_drop.
    + intros k Hk. apply Hd. lia.
  - intros [(rel & Hne & ->) Hd]. rewrite length_app in *. repeat split.
    + by rewrite take_app_length.
    + destruct rel; [done|simpl; lia].
    + intros k Hk. apply Hd. lia.
Qed.

(** ** Facts on strings *)

Lemma str_append_cons (a : ascii) (s t : string) : String a s +:+ t = String a (s +:+ t).
Proof. reflexivity. Qed.

Lemma str_append_nil_l (s : string) : "" +:+ s = s.
Proof. reflexivity. Qed.

Lemma str_append_nil_r (s : string) : s +:+ "" = s.
Proof. induction s as [|a s IH]; [done|]. by rewrite str_append_cons, IH. Qed.

Lemma str_append_assoc (s t u : string) : (s +:+ t) +:+ u = s +:+ t +:+ u.
Proof. induction s as [|a s IH]; [done|]. by rewrite !str_append_cons, IH. Qed.

(** ** What the writing loop produces *)

Lemma content_of_insert_ne (fs : filesystem) (q p : path) (e : entry) :
  q ≠ p → content_of (<[q := e]> fs) p = content_of fs p.
Proof.
  intros Hne. unfold content_of, read_text. rewrite lookup_insert_ne by done.
  by destruct (fs !! p) as [[[t [msg|]]| |]|].
Qed.

Lemma file_block_insert_ne (fs : filesystem) (root q p : path) (e : entry) :
  q ≠ p → file_block (<[q := e]> fs) root p = file_block fs root p.
Proof. intros Hne. unfold file_block. by rewrite content_of_insert_ne. Qed.

Lemma try_read_text (fs : filesystem) (p : path) :
  try_except (read_text p) (λ exc, ret ("[Error reading file: " +:+ exn_str exc +:+ "]")) fs
  = (Ok (content_of fs p), fs).
Proof.
  unfold try_except, content_of, read_text.
  destruct (fs !! p) as [[[t [msg|]]| |]|]; done.
Qed.

Lemma write_file (fs : filesystem) (output : path) (f : file) (s : string) :
  fs !! output = Some (EFile f) →
  write output s fs = (Ok tt, <[output := EFile (File (text f +:+ s) (read_error f))]> fs).
Proof. intros Hf. unfold write. by rewrite Hf. Qed.

Lemma write_one_spec (fs : filesystem) (root output p : path) (f : file) :
  fs !! output = Some (EFile f) → p ≠ output →
  write_one root output p fs
  = (Ok tt, <[output := EFile (File (text f +:+ file_block fs root p) (read_error f))]> fs).
Proof.
  intros Hf Hne. unfold write_one, bind.
  rewrite (write_file _ _ f) by done.
  rewrite try_read_text, content_of_insert_ne by done.
  erewrite write_file by apply lookup_insert_eq. simpl.
  rewrite insert_insert_eq. unfold file_block.
  destruct (Str.endswith _ (content_of fs p)) eqn:Hend; simpl.
  - unfold ret. erewrite write_file by apply lookup_insert_eq. simpl.
    rewrite insert_insert_eq. by rewrite !str_append_assoc.
  - erewrite write_file by apply lookup_insert_eq. simpl. rewrite insert_insert_eq.
    erewrite write_file by apply lookup_insert_eq. simpl. rewrite insert_insert_eq.
    by rewrite !str_append_assoc.
Qed.

Lemma write_all_spec (root output : path) (files : list path) :
  ∀ (fs : filesystem) (f : file),
  fs !! output = Some (EFile f) → output ∉ files →
  write_all root output files fs
  = (Ok tt, <[output := EFile (File (text f +:+ String.concat "" (file_block fs root <$> files))
                                    (read_error f))]> fs).
Proof.
  induction files as [|p files IH]; intros fs f Hf Hout; simpl.
  - unfold ret. rewrite str_append_nil_r. destruct f. by rewrite insert_id.
  - apply not_elem_of_cons in Hout as [Hne Hout].
    unfold bind. rewrite (write_one_spec _ _ _ _ f) by done.
    erewrite IH; [|apply lookup_insert_eq|done]. simpl.
    rewrite insert_insert_eq. do 4 f_equal.
    rewrite str_append_assoc. f_equal.
    assert (file_block (<[output:=EFile {| text := text f +:+ file_block fs root p;
                                      read_error := read_error f |}]> fs) root <$> files
            = file_block fs root <$> files) as ->.
    { apply Forall_fmap_ext, Forall_forall.
      intros q Hq. apply file_block_insert_ne. by intros ->. }
    destruct files; simpl; [by rewrite str_append_nil_r|done].
Qed.

(** ** Creating the parent directories and opening the output *)

Lemma os_mkdir_inv (d : path) (fs fs' : filesystem) (r : result unit) :
  os_mkdir d fs = (r, fs') →
  (r = Ok tt ∧ fs !! d = None ∧ is_dir fs (Path.parent d) ∧ fs' = <[d := EDir]> fs)
  ∨ (fs' = fs ∧
     ((r = Raise FileExistsError ∧ is_Some (fs !! d))
      ∨ (r = Raise NotADirectoryError ∧ fs !! d = None)
      ∨ (r = Raise FileNotFoundError ∧ fs !! d = None ∧ fs !! Path.parent d = None))).
Proof.
  unfold os_mkdir, is_dir. destruct (fs !! d) as [e|] eqn:Hd.
  { intros [= <- <-]. right. eauto 6. }
  destruct (fs !! Path.parent d) as [[]|] eqn:Hp; intros [= <- <-]; eauto 10.
Qed.

Lemma parent_reverse_cons (c : string) (rd : list string) :
  Path.parent (reverse (c :: rd)) = reverse rd.
Proof.
  unfold Path.parent. rewrite reverse_cons, length_app. simpl.
  replace (length (reverse rd) + 1 - 1) with (length (reverse rd)) by lia.
  by rewrite take_app_length.
Qed.

Lemma mkdir_parents_rev_post (rd : list string) :
  ∀ (fs fs' : filesystem) (r : result unit),
  mkdir_parents_rev rd fs = (r, fs') → mkdir_post (reverse rd) fs r fs'.
Proof.
  induction rd as [|c rd IH]; intros fs fs' r.
  - cbn [mkdir_parents_rev]. unfold try_except.
    destruct (os_mkdir (reverse []) fs) as [r0 fs1] eqn:Hos.
    apply os_mkdir_inv in Hos
      as [(-> & Hd & Hp & ->)|(-> & [[-> Hd]|[[-> Hd]|(-> & Hd & Hp)]])];
      unfold bind, gets, raise, ret.
    + unfold is_dir in Hp.
      change (Path.parent (reverse [])) with (reverse (@nil string)) in Hp.
      by rewrite Hd in Hp.
    + destruct (is_dir fs (reverse [])) eqn:Hdir; intros [= <- <-]; simpl; [|done].
      split; [by rewrite Hdir|]. split; [done|auto].
    + unfold is_dir. rewrite Hd. by intros [= <- <-].
    + by intros [= <- <-].
  - cbn [mkdir_parents_rev]. unfold try_except.
    destruct (os_mkdir (reverse (c :: rd)) fs) as [r0 fs1] eqn:Hos.
    apply os_mkdir_inv in Hos
      as [(-> & Hd & Hp & ->)|(-> & [[-> Hd]|[[-> Hd]|(-> & Hd & Hp)]])];
      unfold bind, gets, raise, ret.
    + intros [= <- <-]. simpl. split; [|split].
      * unfold is_dir. by rewrite lookup_insert_eq.
      * intros q e Hq. rewrite lookup_insert_ne; [done|]. intros <-. congruence.
      * intros q Hq. destruct (decide (reverse (c :: rd) = q)) as [<-|Hne].
        -- right. by rewrite lookup_insert_eq.
        -- left. by rewrite lookup_insert_ne.
    + destruct (is_dir fs (reverse (c :: rd))) eqn:Hdir; intros [= <- <-]; simpl; [|done].
      split; [by rewrite Hdir|]. split; [done|auto].
    + unfold is_dir. rewrite Hd. by intros [= <- <-].
    + destruct (mkdir_parents_rev rd fs) as [[[]|e] fs1] eqn:Hrec;
        apply IH in Hrec; simpl in Hrec; [|intros [= <- <-]; by subst].
      destruct Hrec as (Hdir1 & Hkeep & Hnew).
      assert (fs1 !! reverse (c :: rd) = None) as Hd1.
      { destruct (Hnew _ Hd) as [?|[_ Hpre]]; [done|].
        apply prefix_length in Hpre. rewrite reverse_cons, length_app in Hpre.
        simpl in Hpre. lia. }
      unfold mkdir_exist_ok, try_except, os_mkdir. rewrite Hd1, parent_reverse_cons.
      unfold is_dir in Hdir1. destruct (fs1 !! reverse rd) as [[]|]; try done.
      intros [= <- <-]. simpl. split; [|split].
      * unfold is_dir. by rewrite lookup_insert_eq.
      * intros q e Hq. rewrite lookup_insert_ne; [by apply Hkeep|].
        intros <-. congruence.
      * intros q Hq. destruct (decide (reverse (c :: rd) = q)) as [<-|Hne].
        { right. by rewrite lookup_insert_eq. }
        rewrite lookup_insert_ne by done.
        destruct (Hnew _ Hq) as [?|[? Hpre]]; [by left|right].
        split; [done|]. rewrite reverse_cons. by apply prefix_app_r.
Qed.

Lemma mkdir_parents_post (d : path) (fs fs' : filesystem) (r : result unit) :
  mkdir_parents d fs = (r, fs') → mkdir_post d fs r fs'.
Proof.
  unfold mkdir_parents. intros H%mkdir_parents_rev_post.
  by rewrite reverse_involutive in H.
Qed.

Lemma mkdir_parents_rev_is_dir (rd : list string) (fs : filesystem) :
  is_dir fs (reverse rd) → mkdir_parents_rev rd fs = (Ok tt, fs).
Proof.
  intros Hdir.
  assert (os_mkdir (reverse rd) fs = (Raise FileExistsError, fs)) as Hos.
  { unfold os_mkdir. unfold is_dir in Hdir. by destruct (fs !! reverse rd). }
  destruct rd as [|c rd]; cbn [mkdir_parents_rev]; unfold try_except; rewrite Hos;
    unfold bind, gets; by destruct (is_dir fs _).
Qed.

Lemma mkdir_parents_is_dir (d : path) (fs : filesystem) :
  is_dir fs d → mkdir_parents d fs = (Ok tt, fs).
Proof.
  intros Hdir. apply mkdir_parents_rev_is_dir. by rewrite reverse_involutive.
Qed.

Lemma open_w_inv (p : path) (fs fs' : filesystem) (r : result unit) :
  open_w p fs = (r, fs') →
  match r with
  | Ok _ => ∃ err, fs' = <[p := EFile (File "" err)]> fs ∧
                   (fs !! p = None ∨ ∃ f, fs !! p = Some (EFile f) ∧ err = read_error f)
  | Raise _ => fs' = fs
  end.
Proof.
  unfold open_w. destruct (fs !! p) as [[f| |]|] eqn:Hp.
  - intros [= <- <-]. eauto 6.
  - by intros [= <- <-].
  - by intros [= <- <-].
  - destruct (fs !! Path.parent p) as [[]|]; intros [= <- <-]; eauto.
Qed.

(** ** The run as a whole *)

Lemma aggregate_files_unfold (root : path) (ext : string) (output : path)
    (gitignore_spec : option (string → bool)) (fs : filesystem) :
  aggregate_files root ext output gitignore_spec fs =
  let files := sorted_files fs root (Str.lower ext) output gitignore_spec in
  match files with
  | [] => (Ok 0, fs)
  | _ :: _ =>
      match mkdir_parents (Path.parent output) fs with
      | (Raise e, fs1) => (Raise e, fs1)
      | (Ok _, fs1) =>
          match open_w output fs1 with
          | (Raise e, fs2) => (Raise e, fs2)
          | (Ok _, fs2) =>
              match write_all root output files fs2 with
              | (Raise e, fs3) => (Raise e, fs3)
              | (Ok _, fs3) => (Ok (length files), fs3)
              end
          end
      end
  end.
Proof.
  unfold aggregate_files, bind, gets, ret. simpl.
  destruct (sorted_files fs root (Str.lower ext) output gitignore_spec); [done|].
  destruct (mkdir_parents (Path.parent output) fs) as [[[]|e] fs1]; [|done].
  destruct (open_w output fs1) as [[[]|e] fs2]; [|done].
  by destruct (write_all root output _ fs2) as [[[]|e] fs3].
Qed.

Section run.
Context (root : path) (ext : string) (output : path)
        (gitignore_spec : option (string → bool)) (fs : filesystem).

Local Abbreviation files := (sorted_files fs root (Str.lower ext) output gitignore_spec).

Lemma output_not_in_files : output ∉ files.
Proof.
  rewrite elem_of_sorted_files. intros [Hkeep _].
  unfold keep in Hkeep. rewrite !andb_True in Hkeep. destruct Hkeep as [_ Hne].
  by rewrite bool_decide_true in Hne.
Qed.

Lemma files_are_files p : p ∈ files → ∃ f, fs !! p = Some (EFile f).
Proof.
  rewrite elem_of_sorted_files. intros [Hkeep _].
  unfold keep in Hkeep. rewrite !andb_True in Hkeep.
  destruct Hkeep as [[[_ Hfile] _] _]. unfold is_file in Hfile.
  destruct (fs !! p) as [[f| |]|]; try done. eauto.
Qed.

(** The three ways a run ends once [files] is not empty. *)
Lemma aggregate_files_run :
  files ≠ [] →
  match mkdir_parents (Path.parent output) fs with
  | (Raise e, fs1) =>
      fs1 = fs ∧ aggregate_files root ext output gitignore_spec fs = (Raise e, fs)
  | (Ok _, fs1) =>
      match open_w output fs1 with
      | (Raise e, fs2) =>
          fs2 = fs1 ∧
          aggregate_files root ext output gitignore_spec fs = (Raise e, fs1)
      | (Ok _, fs2) =>
          ∃ err,
            fs2 = <[output := EFile (File "" err)]> fs1 ∧
            aggregate_files root ext output gitignore_spec fs
            = (Ok (length files),
               <[output := EFile (File (String.concat "" (file_block fs root <$> files)) err)]> fs1)
      end
  end.
Proof.
  intros Hne. rewrite aggregate_files_unfold. cbv zeta.
  destruct files as [|p0 l] eqn:Hfiles; [done|]. rewrite <-Hfiles. clear Hne.
  destruct (mkdir_parents (Path.parent output) fs) as [[[]|e] fs1] eqn:Hmk;
    apply mkdir_parents_post in Hmk; simpl in Hmk; [|by subst].
  destruct Hmk as (_ & Hkeep & _).
  destruct (open_w output fs1) as [[[]|e] fs2] eqn:Hop;
    apply open_w_inv in Hop; [|by subst].
  destruct Hop as (err & -> & _). exists err. split; [done|].
  rewrite (write_all_spec _ _ _ _ (File "" err));
    [|apply lookup_insert_eq|apply output_not_in_files].
  simpl. rewrite insert_insert_eq, str_append_nil_l.
  assert (file_block (<[output:=EFile (File "" err)]> fs1) root <$> files
          = file_block fs root <$> files) as ->; [|done].
  apply Forall_fmap_ext, Forall_forall.
  intros p Hp. rewrite file_block_insert_ne.
  2:{ intros <-. by apply output_not_in_files in Hp. }
  unfold file_block, content_of, read_text.
  destruct (files_are_files p Hp) as [f Hf]. rewrite Hf, (Hkeep _ _ Hf).
  by destruct (read_error f).
Qed.

End run.

Lemma fs_wf_spec (fs : filesystem) (p : path) (k : nat) :
  fs_wf fs = true → is_Some (fs !! p) → k < length p → is_dir fs (take k p).
Proof.
  unfold fs_wf. intros Hwf%Is_true_true [e He] Hk.
  rewrite forallb_True, Forall_forall in Hwf.
  assert (p ∈ (map_to_list fs).*1) as Hp.
  { apply list_elem_of_fmap. exists (p, e). by rewrite elem_of_map_to_list. }
  apply Hwf in Hp. rewrite forallb_True, Forall_seq in Hp. apply Hp. lia.
Qed.

Lemma reachable_wf (fs : filesystem) (root p : path) :
  fs_wf fs = true → is_Some (fs !! p) → Path.below root p → reachable fs root p.
Proof.
  intros Hwf Hp Hb. unfold reachable. rewrite andb_True. split; [done|].
  rewrite forallb_True, Forall_seq. intros k Hk. apply fs_wf_spec; [done..|].
  unfold Path.below in Hb. apply andb_True in Hb as [_ Hb].
  apply Is_true_true, Nat.ltb_lt in Hb. lia.
Qed.

Lemma reachable_mono (fs fs' : filesystem) (root p : path) :
  (∀ q, is_dir fs q → is_dir fs' q) → reachable fs root p → reachable fs' root p.
Proof.
  intros Hdir. unfold reachable. rewrite !andb_True, !forallb_True, !Forall_seq.
  intros [? H]. split; [done|]. intros k Hk. by apply Hdir, H.
Qed.

(** Two file systems with the same regular files apart from [output], the
    second keeping the directories of the first, have the same candidates. *)
Lemma sorted_files_same (fs fs' : filesystem) (root : path) (ext : string)
    (output : path) (gitignore_spec : option (string → bool)) :
  fs_wf fs = true →
  (∀ q, is_dir fs q → is_dir fs' q) →
  (∀ p, p ≠ output → is_file fs' p = is_file fs p) →
  sorted_files fs' root ext output gitignore_spec
  = sorted_files fs root ext output gitignore_spec.
Proof.
  intros Hwf Hdir Hfile.
  apply (StronglySorted_unique Path.le); [apply sorted_files_sorted..|].
  apply NoDup_Permutation; [apply NoDup_sorted_files..|].
  intros p. rewrite !elem_of_sorted_files, !elem_of_rglob.
  assert (keep fs' root ext output gitignore_spec p
          = keep fs root ext output gitignore_spec p) as ->.
  { unfold keep. destruct (decide (p = output)) as [->|Hne].
    - rewrite bool_decide_true by done. simpl. by rewrite !andb_false_r.
    - by rewrite Hfile. }
  split; intros (Hkeep & Hreach & Hsome); (split; [done|]).
  - assert (is_file fs p) as Hf.
    { unfold keep in Hkeep. rewrite !andb_True in Hkeep. tauto. }
    assert (is_Some (fs !! p)) as Hp.
    { unfold is_file in Hf. by destruct (fs !! p). }
    split; [|done]. apply reachable_wf; [done..|].
    unfold reachable in Hreach. rewrite andb_True in Hreach. tauto.
  - split; [by eapply reachable_mono|].
    assert (is_file fs' p) as Hf.
    { unfold keep in Hkeep. rewrite !andb_True in Hkeep.
      destruct Hkeep as [[[_ Hf] _] Hne]. rewrite Hfile; [done|].
      intros ->. by rewrite bool_decide_true in Hne. }
    unfold is_file in Hf. by destruct (fs' !! p).
Qed.

Lemma is_dir_insert_file (fs : filesystem) (output q : path) (f : file) :
  ¬ is_dir fs output → is_dir fs q → is_dir (<[output := EFile f]> fs) q.
Proof.
  intros Hout Hq. unfold is_dir. rewrite lookup_insert_ne; [done|]. by intros ->.
Qed.

Lemma is_file_insert_ne (fs : filesystem) (output p : path) (e : entry) :
  p ≠ output → is_file (<[output := e]> fs) p = is_file fs p.
Proof. intros Hne. unfold is_file. by rewrite lookup_insert_ne. Qed.

Lemma mkdir_post_is_dir (d : path) (fs fs' : filesystem) (u : unit) :
  mkdir_post d fs (Ok u) fs' → ∀ q, is_dir fs q → is_dir fs' q.
Proof.
  intros (_ & Hkeep & _) q. unfold is_dir.
  destruct (fs !! q) as [[]|] eqn:Hq; try done. by rewrite (Hkeep _ _ Hq).
Qed.

Lemma mkdir_post_is_file (d : path) (fs fs' : filesystem) (u : unit) :
  mkdir_post d fs (Ok u) fs' → ∀ p, is_file fs' p = is_file fs p.
Proof.
  intros (_ & Hkeep & Hnew) p. unfold is_file.
  destruct (fs !! p) as [e|] eqn:Hp; [by rewrite (Hkeep _ _ Hp)|].
  by destruct (Hnew _ Hp) as [->|[-> _]].
Qed.

(** ** Lower case and suffixes *)

Lemma lower_char_idemp (c : ascii) : Str.lower_char (Str.lower_char c) = Str.lower_char c.
Proof. destruct c as [[] [] [] [] [] [] [] []]; reflexivity. Qed.

Lemma lower_char_dot (c : ascii) :
  Ascii.eqb (Str.lower_char c) "." = Ascii.eqb c ".".
Proof. destruct c as [[] [] [] [] [] [] [] []]; reflexivity. Qed.

Lemma lower_idemp (s : string) : Str.lower (Str.lower s) = Str.lower s.
Proof. induction s as [|c s IH]; simpl; [done|]. by rewrite lower_char_idemp, IH. Qed.

Lemma str_length_lower (s : string) : String.length (Str.lower s) = String.length s.
Proof. induction s as [|c s IH]; simpl; congruence. Qed.

Lemma str_count_lower (s : string) : Str.count "." (Str.lower s) = Str.count "." s.
Proof. induction s as [|c s IH]; simpl; [done|]. by rewrite lower_char_dot, IH. Qed.

Lemma str_length_drop (i : nat) (s : string) :
  String.length (Str.drop i s) = String.length s - i.
Proof. revert i. induction s as [|c s IH]; intros [|i]; simpl; auto. Qed.

Lemma rfind_None_count (c : ascii) (s : string) :
  Str.rfind c s = None → Str.count c s = 0.
Proof.
  induction s as [|a s IH]; simpl; [done|].
  destruct (Str.rfind c s); [done|]. destruct (Ascii.eqb a c); [done|]. auto.
Qed.

Lemma rfind_Some_count (c : ascii) (s : string) (i : nat) :
  Str.rfind c s = Some i → Str.count c (Str.drop i s) = 1.
Proof.
  revert i. induction s as [|a s IH]; intros i; simpl; [done|].
  destruct (Str.rfind c s) as [j|] eqn:Hr.
  - intros [= <-]. simpl. by apply IH.
  - destruct (Ascii.eqb a c) eqn:Ha; [|done]. intros [= <-]. simpl.
    by rewrite Ha, rfind_None_count.
Qed.

Lemma path_suffix_count (p : path) : Str.count "." (Path.suffix p) ≤ 1.
Proof.
  unfold Path.suffix. destruct (Str.rfind "." (Path.name p)) as [i|] eqn:Hr; simpl; [|lia].
  destruct (_ && _); simpl; [|lia]. by rewrite (rfind_Some_count _ _ _ Hr).
Qed.

Lemma path_suffix_length (p : path) :
  Path.name p ≠ "" → String.length (Path.suffix p) < String.length (Path.name p).
Proof.
  intros Hne. assert (0 < String.length (Path.name p)).
  { destruct (Path.name p); [done|simpl; lia]. }
  unfold Path.suffix. destruct (Str.rfind "." (Path.name p)) as [i|]; simpl; [|lia].
  destruct (0 <? i)%nat eqn:Hi; simpl; [|lia].
  destruct (i <? _)%nat; simpl; [|lia].
  apply Nat.ltb_lt in Hi. rewrite str_length_drop. lia.
Qed.

(** ** Splitting at the separator *)

Lemma str_prefix_append (s t : string) : String.prefix s (s +:+ t) = true.
Proof.
  induction s as [|a s IH]; [by destruct t|].
  rewrite str_append_cons. simpl. by destruct (ascii_dec a a).
Qed.

Lemma str_prefix_nil (s : string) : String.prefix "" s = true.
Proof. by destruct s. Qed.

Lemma str_prefix_cons (a b : ascii) (s t : string) :
  String.prefix (String a s) (String b t) = Ascii.eqb a b && String.prefix s t.
Proof.
  simpl. destruct (ascii_dec a b) as [->|Hne].
  - by rewrite Ascii.eqb_refl.
  - by apply Ascii.eqb_neq in Hne as ->.
Qed.

Lemma rev_app_rev_app (b cur acc : string) :
  String.rev_app (String.rev_app b cur) acc = String.rev_app cur (b +:+ acc).
Proof.
  revert cur acc. induction b as [|c b IH]; intros cur acc; [done|].
  simpl. by rewrite IH.
Qed.

Lemma prefix_dashes (n : nat) (y s : string) :
  String.prefix (Str.replicate n "-" +:+ y) s = true → dashes n s = true.
Proof.
  revert s. induction n as [|n IH]; intros s; [done|].
  destruct s as [|c s]; [done|]. simpl Str.replicate. rewrite str_append_cons, str_prefix_cons.
  intros [Hc Hp]%andb_true_iff. simpl. rewrite Ascii.eqb_sym, Hc. simpl. by apply IH.
Qed.

Lemma dashes_prefix (n : nat) (s : string) :
  dashes n s = true → String.prefix (Str.replicate n "-") s = true.
Proof.
  revert s. induction n as [|n IH]; intros s; [intros _; apply str_prefix_nil|].
  destruct s as [|c s]; [done|]. simpl dashes. intros [Hc Hp]%andb_true_iff.
  simpl Str.replicate. rewrite str_prefix_cons, Ascii.eqb_sym, Hc. simpl. by apply IH.
Qed.

(** a run of dashes that starts in [t] does not reach past a newline *)
Lemma dashes_before_newline (n : nat) (t x : string) :
  dashes n (t +:+ String "010" x) = true → dashes n t = true.
Proof.
  revert t. induction n as [|n IH]; intros t; [done|].
  destruct t as [|c t]; [done|]. rewrite str_append_cons. simpl.
  intros [Hc Hp]%andb_true_iff. rewrite Hc. simpl. by apply IH.
Qed.

Lemma split_go_skip (sep u cur rest : string) :
  Str.split_go sep (String.length u) cur (u +:+ rest) = Str.split_go sep 0 cur rest.
Proof. induction u as [|c u IH]; [done|]. rewrite str_append_cons. simpl. apply IH. Qed.

Lemma block_sep_head :
  block_sep = String "-" (Str.replicate 79 "-" +:+ Str.newline +:+ Str.newline).
Proof. reflexivity. Qed.

Lemma split_go_sep (cur rest : string) :
  Str.split_go block_sep 0 cur (block_sep +:+ rest)
  = String.rev cur :: Str.split_go block_sep 0 "" rest.
Proof.
  rewrite block_sep_head at 2. rewrite str_append_cons. cbn [Str.split_go].
  rewrite <-str_append_cons, <-block_sep_head, str_prefix_append.
  apply (f_equal (cons _)),
    (split_go_skip block_sep (Str.replicate 79 "-" +:+ Str.newline +:+ Str.newline)).
Qed.

Lemma str_contains_cons (sub : string) (c : ascii) (s : string) :
  Str.contains sub (String c s) = false →
  String.prefix sub (String c s) = false ∧ Str.contains sub s = false.
Proof. cbn [Str.contains]. by destruct (String.prefix sub (String c s)). Qed.

(** Reading up to a newline, over a text with no run of 80 dashes, finds no
    separator. *)
Lemma split_go_line (t cur x : string) :
  Str.contains separator t = false →
  Str.split_go block_sep 0 cur (t +:+ String "010" x)
  = Str.split_go block_sep 0 (String "010" (String.rev_app t cur)) x.
Proof.
  revert cur. induction t as [|c t IH]; intros cur Hsafe.
  - rewrite str_append_nil_l. cbn [Str.split_go]. by rewrite block_sep_head, str_prefix_cons.
  - apply str_contains_cons in Hsafe as [Hpre Hsafe].
    rewrite str_append_cons. cbn [Str.split_go].
    destruct (String.prefix block_sep (String c (t +:+ String "010" x))) eqn:Hp.
    + apply (prefix_dashes 80 (Str.newline +:+ Str.newline)) in Hp.
      rewrite <-str_append_cons in Hp. apply dashes_before_newline, dashes_prefix in Hp.
      unfold separator in Hpre. congruence.
    + by rewrite IH.
Qed.

Lemma str_prefix_append_r (sub s y : string) :
  String.prefix sub s = true → String.prefix sub (s +:+ y) = true.
Proof.
  revert s. induction sub as [|a sub IH]; intros s; [intros _; apply str_prefix_nil|].
  destruct s as [|b s]; [done|]. rewrite str_append_cons, !str_prefix_cons.
  intros [-> ?]%andb_true_iff. simpl. by apply IH.
Qed.

Lemma str_contains_append (sub s y : string) :
  Str.contains sub (s +:+ y) = false → Str.contains sub s = false.
Proof.
  induction s as [|a s IH].
  - rewrite str_append_nil_l. destruct sub; [by destruct y|done].
  - rewrite str_append_cons. cbn [Str.contains].
    destruct (String.prefix sub (String a s)) eqn:Hp.
    + rewrite <-str_append_cons, (str_prefix_append_r _ _ _ Hp). done.
    + destruct (String.prefix sub (String a (s +:+ y))); [done|]. apply IH.
Qed.

Lemma endswith_newline_inv (s : string) :
  Str.endswith Str.newline s = true → ∃ t, s = t +:+ Str.newline.
Proof.
  induction s as [|a s IH]; [done|]. cbn [Str.endswith].
  destruct (String.eqb_spec (String a s) Str.newline) as [->|_].
  - intros _. by exists "".
  - intros [t ->]%IH. by exists (String a t).
Qed.

Lemma with_final_newline_inv (content : string) :
  Str.contains separator content = false →
  ∃ t, with_final_newline content = t +:+ Str.newline ∧ Str.contains separator t = false.
Proof.
  intros Hsafe. unfold with_final_newline.
  destruct (Str.endswith Str.newline content) eqn:Hend.
  - apply endswith_newline_inv in Hend as [t ->]. exists t.
    rewrite str_append_nil_r. split; [done|]. by eapply str_contains_append.
  - by exists content.
Qed.

Lemma file_block_pieces (fs : filesystem) (root p : path) :
  file_block fs root p
  = (Path.as_posix (Path.relative_to root p) +:+ Str.newline
     +:+ with_final_newline (content_of fs p)) +:+ block_sep.
Proof.
  unfold file_block, with_final_newline, block_sep, separator.
  by rewrite !str_append_assoc.
Qed.

(** One block, followed by anything, splits into its piece and the rest. *)
Lemma split_go_block (fs : filesystem) (root p : path) (rest : string) :
  Str.contains separator (Path.as_posix (Path.relative_to root p)) = false →
  Str.contains separator (content_of fs p) = false →
  Str.split_go block_sep 0 "" (file_block fs root p +:+ rest)
  = (Path.as_posix (Path.relative_to root p) +:+ Str.newline
     +:+ with_final_newline (content_of fs p))
    :: Str.split_go block_sep 0 "" rest.
Proof.
  intros Hrel Hcontent. rewrite file_block_pieces.
  destruct (with_final_newline_inv _ Hcontent) as (t & -> & Ht).
  set (rel := Path.as_posix _) in *.
  replace ((rel +:+ Str.newline +:+ t +:+ Str.newline) +:+ block_sep)
    with (rel +:+ String "010" (t +:+ String "010" block_sep))
    by (unfold Str.newline; by rewrite !str_append_assoc).
  rewrite str_append_assoc, str_append_cons, str_append_assoc, str_append_cons.
  rewrite split_go_line, split_go_line, split_go_sep by done.
  f_equal. unfold String.rev. cbn [String.rev_app].
  rewrite rev_app_rev_app. cbn [String.rev_app]. by rewrite rev_app_rev_app.
Qed.

Lemma str_concat_cons (b : string) (l : list string) :
  String.concat "" (b :: l) = b +:+ String.concat "" l.
Proof. destruct l; simpl; [by rewrite str_append_nil_r|done]. Qed.

Lemma split_blocks (fs : filesystem) (root : path) (files : list path) :
  (∀ p, p ∈ files →
        Str.contains separator (Path.as_posix (Path.relative_to root p)) = false ∧
        Str.contains separator (content_of fs p) = false) →
  Str.split block_sep (String.concat "" (file_block fs root <$> files))
  = ((λ p, Path.as_posix (Path.relative_to root p) +:+ Str.newline
           +:+ with_final_newline (content_of fs p)) <$> files) ++ [""].
Proof.
  unfold Str.split. induction files as [|p files IH]; intros Hsafe; [done|].
  rewrite fmap_cons, str_concat_cons.
  destruct (Hsafe p) as [Hrel Hcontent]; [by left|].
  rewrite split_go_block by done. rewrite IH; [done|].
  intros q Hq. apply Hsafe. by right.
Qed.

Lemma first_line_append (rel x : string) :
  Str.count "010" rel = 0 →
  first_line (rel +:+ String "010" x) = rel ∧ after_first_line (rel +:+ String "010" x) = x.
Proof.
  induction rel as [|c rel IH]; [done|]. rewrite str_append_cons. simpl.
  destruct (Ascii.eqb c "010"); [done|]. simpl. intros [-> ->]%IH. done.
Qed.

(** ** Shared consequences of the run lemmas *)

Lemma path_leb_app (root a b : path) : Path.leb (root ++ a) (root ++ b) = Path.leb a b.
Proof. induction root as [|c root IH]; simpl; [done|]. by rewrite String.eqb_refl. Qed.

Lemma below_app (root p : path) :
  Path.below root p → p = root ++ Path.relative_to root p.
Proof.
  unfold Path.below, Path.relative_to. intros [Ht _]%andb_True.
  apply bool_decide_unpack in Ht. rewrite <-(take_drop (length root) p) at 1.
  by rewrite Ht.
Qed.

Lemma sorted_relative (root : path) (l : list path) :
  Forall (λ p, Path.below root p) l →
  StronglySorted Path.le l → StronglySorted Path.le (Path.relative_to root <$> l).
Proof.
  intros Hall Hs. induction Hs as [|p l Hs IH Hp]; csimpl; constructor.
  - apply IH. by inversion Hall.
  - apply Forall_fmap. inversion_clear Hall as [|?? Hb Hall'].
    rewrite Forall_forall in Hp, Hall' |- *. intros q Hq. simpl.
    specialize (Hp q Hq). unfold Path.le in *.
    rewrite (below_app root p Hb), (below_app root q (Hall' q Hq)), path_leb_app in Hp.
    done.
Qed.

Lemma keep_spec (fs : filesystem) (root : path) (ext : string) (output : path)
    (gitignore_spec : option (string → bool)) (p : path) :
  keep fs root ext output gitignore_spec p ↔
    matched gitignore_spec (Path.as_posix (Path.relative_to root p)) = false
    ∧ is_file fs p
    ∧ Str.lower (Path.suffix p) = ext
    ∧ p ≠ output.
Proof.
  unfold keep. rewrite !andb_True, !negb_True, bool_decide_spec.
  rewrite (Is_true_true (String.eqb _ _)), String.eqb_eq.
  destruct (matched _ _); simpl; intuition congruence.
Qed.

Lemma sorted_files_nil (fs : filesystem) (root : path) (ext : string) (output : path)
    (gitignore_spec : option (string → bool)) :
  collect fs root ext output gitignore_spec = [] ↔
  sorted_files fs root ext output gitignore_spec = [].
Proof.
  unfold sorted_files. split; [by intros ->|].
  intros H. apply Permutation_nil_r. by rewrite <-H, merge_sort_Permutation.
Qed.

Lemma aggregate_files_written (root : path) (ext : string) (output : path)
    (gitignore_spec : option (string → bool)) (fs fs' : filesystem) (n : nat) :
  aggregate_files root ext output gitignore_spec fs = (Ok n, fs') → n ≠ 0 →
  n = length (sorted_files fs root (Str.lower ext) output gitignore_spec) ∧
  ∃ err, fs' !! output
         = Some (EFile (File (String.concat ""
                   (file_block fs root
                      <$> sorted_files fs root (Str.lower ext) output gitignore_spec)) err)).
Proof.
  intros Hrun Hn.
  destruct (decide (sorted_files fs root (Str.lower ext) output gitignore_spec = []))
    as [Hnil|Hne].
  { rewrite aggregate_files_unfold in Hrun. cbv zeta in Hrun. rewrite Hnil in Hrun.
    by simplify_eq. }
  pose proof (aggregate_files_run root ext output gitignore_spec fs Hne) as H.
  destruct (mkdir_parents (Path.parent output) fs) as [[[]|e] fs1].
  2:{ destruct H as [_ H]. rewrite H in Hrun. by simplify_eq. }
  destruct (open_w output fs1) as [[[]|e] fs2].
  2:{ destruct H as [_ H]. rewrite H in Hrun. by simplify_eq. }
  destruct H as (err & _ & H). rewrite H in Hrun. simplify_eq.
  split; [done|]. exists err. by rewrite lookup_insert_eq.
Qed.

Lemma endswith_closing (s : string) : Str.endswith Str.newline (s +:+ "]") = false.
Proof.
  induction s as [|a s IH]; [done|]. rewrite str_append_cons. cbn [Str.endswith].
  rewrite IH. destruct (String.eqb_spec (String a (s +:+ "]")) Str.newline) as [Heq|]; [|done].
  injection Heq as _ Heq. by destruct s.
Qed.

Lemma content_of_unreadable (fs : filesystem) (p : path) (content msg : string) :
  fs !! p = Some (EFile (File content (Some msg))) →
  content_of fs p = "[Error reading file: " +:+ msg +:+ "]".
Proof. intros Hp. unfold content_of, read_text. by rewrite Hp. Qed.

Lemma run_pair {A} (run : result A * filesystem) (r : result A) :
  run.1 = r → run = (r, run.2).
Proof. destruct run. simpl. congruence. Qed.

Lemma open_w_file (p : path) (fs : filesystem) (f : file) :
  fs !! p = Some (EFile f) →
  open_w p fs = (Ok tt, <[p := EFile (File "" (read_error f))]> fs).
Proof. intros Hp. unfold open_w. by rewrite Hp. Qed.

(** * Further proofs *)

(** ** Well-formed file systems *)

Lemma fs_wf_intro (fs : filesystem) :
  (∀ p k, is_Some (fs !! p) → k < length p → is_dir fs (take k p)) → fs_wf fs = true.
Proof.
  intros Hwf. unfold fs_wf. apply Is_true_true, forallb_True, Forall_forall.
  intros p Hp. apply forallb_True, Forall_seq. intros k Hk.
  apply list_elem_of_fmap in Hp as ([p' e] & -> & Hp%elem_of_map_to_list).
  simpl in *. apply Hwf; [by eexists|lia].
Qed.

Lemma fs_wf_prefix (fs : filesystem) (p q : path) :
  fs_wf fs = true → is_Some (fs !! p) → q `prefix_of` p → q ≠ p → is_dir fs q.
Proof.
  intros Hwf Hp [k ->] Hne.
  replace q with (take (length q) (q ++ k)) by apply take_app_length.
  apply fs_wf_spec; [done..|]. rewrite length_app.
  destruct k; [by rewrite app_nil_r in Hne|simpl; lia].
Qed.

Lemma fs_wf_parent (fs : filesystem) (p : path) :
  fs_wf fs = true → is_Some (fs !! p) → p ≠ [] → is_dir fs (Path.parent p).
Proof.
  intros Hwf Hp Hne. unfold Path.parent. apply fs_wf_spec; [done..|].
  destruct p; [done|simpl; lia].
Qed.

Lemma prefix_snoc_inv {A} (q l : list A) (c : A) :
  q `prefix_of` l ++ [c] → q = l ++ [c] ∨ q `prefix_of` l.
Proof.
  intros [k Hk]. destruct k as [|x k _] using rev_ind.
  - left. by rewrite app_nil_r in Hk.
  - right. rewrite app_assoc in Hk. apply app_inj_tail in Hk as [-> _].
    by apply prefix_app_r.
Qed.

Lemma prefix_parent (q p : path) : q `prefix_of` p → q ≠ p → q `prefix_of` Path.parent p.
Proof.
  intros Hq Hne. destruct p as [|x p _] using rev_ind.
  { by apply prefix_nil_inv in Hq. }
  apply prefix_snoc_inv in Hq as [?|Hq]; [done|].
  unfold Path.parent. rewrite length_app. simpl.
  replace (length p + 1 - 1) with (length p) by lia. by rewrite take_app_length.
Qed.

Lemma parent_prefix (p : path) : Path.parent p `prefix_of` p.
Proof. apply prefix_take. Qed.

(** After a successful [mkdir(parents=True, exist_ok=True)] on a well-formed
    file system the whole chain down to the directory is made of
    directories. *)
Lemma mkdir_parents_rev_chain (rd : list string) :
  ∀ (fs fs' : filesystem),
  fs_wf fs = true →
  mkdir_parents_rev rd fs = (Ok tt, fs') →
  ∀ q, q `prefix_of` reverse rd → is_dir fs' q.
Proof.
  induction rd as [|c rd IH]; intros fs fs' Hwf Hmk q Hq.
  - apply mkdir_parents_rev_post in Hmk as (Hd & _).
    apply prefix_nil_inv in Hq as ->. done.
  - pose proof (mkdir_parents_rev_post _ _ _ _ Hmk) as (Hd & Hkeep & Hnew).
    rewrite reverse_cons in Hq. apply prefix_snoc_inv in Hq as [->|Hq].
    { by rewrite <-reverse_cons. }
    cbn [mkdir_parents_rev] in Hmk. unfold try_except in Hmk.
    destruct (os_mkdir (reverse (c :: rd)) fs) as [r0 fs1] eqn:Hos.
    apply os_mkdir_inv in Hos
      as [(-> & Hmiss & Hp & ->)|(-> & [[-> Hex]|[[-> Hmiss]|(-> & Hmiss & Hp)]])];
      unfold bind, gets, raise, ret in Hmk.
    + (* created at once: the parent was there *)
      simplify_eq. rewrite parent_reverse_cons in Hp.
      assert (is_dir fs q) as Hdir.
      { destruct (decide (q = reverse rd)) as [->|Hne]; [done|].
        apply (fs_wf_prefix fs (reverse rd)); [done| |done..].
        unfold is_dir in Hp. by destruct (fs !! reverse rd). }
      unfold is_dir in *. destruct (fs !! q) as [[]|] eqn:Hfq; try done.
      by rewrite (Hkeep _ _ Hfq).
    + (* it was there already *)
      destruct (is_dir fs (reverse (c :: rd))) eqn:Hdir; simplify_eq.
      apply (fs_wf_prefix fs' (reverse (c :: rd))); [done|done| |].
      * rewrite reverse_cons. by apply prefix_app_r.
      * intros ->. rewrite reverse_cons in Hq. by apply prefix_snoc_not in Hq.
    + unfold is_dir in Hmk. rewrite Hmiss in Hmk. simplify_eq.
    + destruct (mkdir_parents_rev rd fs) as [[[]|e] fs1] eqn:Hrec; [|simplify_eq].
      pose proof (IH _ _ Hwf Hrec q Hq) as Hdir.
      pose proof (mkdir_parents_rev_post _ _ _ _ Hrec) as (Hd1 & Hkeep1 & Hnew1).
      assert (fs1 !! reverse (c :: rd) = None) as Hmiss1.
      { destruct (Hnew1 _ Hmiss) as [?|[_ Hpre]]; [done|].
        apply prefix_length in Hpre. rewrite reverse_cons, length_app in Hpre.
        simpl in Hpre. lia. }
      unfold mkdir_exist_ok, try_except, os_mkdir in Hmk.
      rewrite Hmiss1, parent_reverse_cons in Hmk.
      unfold is_dir in Hd1. destruct (fs1 !! reverse rd) as [[]|]; try done.
      simplify_eq. unfold is_dir. rewrite lookup_insert_ne; [done|].
      intros <-. rewrite reverse_cons in Hq. by apply prefix_snoc_not in Hq.
Qed.

Lemma mkdir_parents_chain (d : path) (fs fs' : filesystem) :
  fs_wf fs = true →
  mkdir_parents d fs = (Ok tt, fs') →
  ∀ q, q `prefix_of` d → is_dir fs' q.
Proof.
  unfold mkdir_parents. intros Hwf Hmk q Hq.
  apply (mkdir_parents_rev_chain _ _ _ Hwf Hmk). by rewrite reverse_involutive.
Qed.

Lemma mkdir_parents_wf (d : path) (fs fs' : filesystem) (r : result unit) :
  fs_wf fs = true → mkdir_parents d fs = (r, fs') → fs_wf fs' = true.
Proof.
  intros Hwf Hmk. pose proof (mkdir_parents_post _ _ _ _ Hmk) as Hpost.
  destruct r as [[]|e]; simpl in Hpost; [|by subst].
  destruct Hpost as (_ & Hkeep & Hnew).
  apply fs_wf_intro. intros p k [e Hp] Hk.
  destruct (fs !! p) as [e0|] eqn:Hfp.
  - assert (is_dir fs (take k p)) as Hdir by (apply fs_wf_spec; eauto).
    unfold is_dir in *. destruct (fs !! take k p) as [[]|] eqn:Hq; try done.
    by rewrite (Hkeep _ _ Hq).
  - destruct (Hnew _ Hfp) as [?|[_ Hpre]]; [congruence|].
    apply (mkdir_parents_chain d fs); [done..|].
    by etrans; [apply prefix_take|].
Qed.

(** ** An output without a place *)

Lemma blocked_spec (fs : filesystem) (output : path) :
  blocked fs output = true ↔
    is_dir fs output
    ∨ ∃ q, q `prefix_of` output ∧ q ≠ output ∧ is_Some (fs !! q) ∧ ¬ is_dir fs q.
Proof.
  unfold blocked. rewrite orb_true_iff, existsb_exists, Is_true_true.
  split; (intros [Hd|Hq]; [by left|right]).
  - destruct Hq as (k & Hk%in_seq & [Hs Hn]%andb_true_iff).
    exists (take k output). split; [apply prefix_take|]. split.
    { intros Heq. apply (f_equal length) in Heq. rewrite length_take in Heq. lia. }
    split; [by apply bool_decide_eq_true in Hs|].
    by apply negb_true_iff, Is_true_false in Hn.
  - destruct Hq as (q & [rest ->] & Hne & Hs & Hn). exists (length q).
    rewrite take_app_length. split.
    + apply in_seq. rewrite length_app. destruct rest as [|c rest].
      { by rewrite app_nil_r in Hne. }
      simpl. lia.
    + apply andb_true_iff. split; [by apply bool_decide_eq_true|].
      by apply negb_true_iff, Is_true_false.
Qed.

(** ** What a run changes *)

Section run_effects.
Context (root : path) (ext : string) (output : path)
        (gitignore_spec : option (string → bool)).

Local Abbreviation files fs := (sorted_files fs root (Str.lower ext) output gitignore_spec).

Lemma aggregate_files_frame (fs fs' : filesystem) (r : result nat) (q : path) :
  aggregate_files root ext output gitignore_spec fs = (r, fs') →
  q ≠ output →
  match fs !! q with
  | Some e => fs' !! q = Some e
  | None => fs' !! q = None
            ∨ (fs' !! q = Some EDir ∧ q `prefix_of` Path.parent output)
  end.
Proof.
  intros Hrun Hq.
  assert (match fs !! q with
          | Some e => fs !! q = Some e
          | None => fs !! q = None
                    ∨ (fs !! q = Some EDir ∧ q `prefix_of` Path.parent output)
          end) as Hsame.
  { destruct (fs !! q); auto. }
  destruct (decide (files fs = [])) as [Hnil|Hne].
  { rewrite aggregate_files_unfold in Hrun. cbv zeta in Hrun. rewrite Hnil in Hrun.
    by simplify_eq. }
  pose proof (aggregate_files_run root ext output gitignore_spec fs Hne) as H.
  destruct (mkdir_parents (Path.parent output) fs) as [[[]|e] fsm] eqn:Hmk.
  2:{ destruct H as [_ H]. rewrite H in Hrun. by simplify_eq. }
  apply mkdir_parents_post in Hmk as (_ & Hkeep & Hnew).
  assert (match fs !! q with
          | Some e => fsm !! q = Some e
          | None => fsm !! q = None
                    ∨ (fsm !! q = Some EDir ∧ q `prefix_of` Path.parent output)
          end) as Hm.
  { destruct (fs !! q) eqn:Hfq; auto. }
  destruct (open_w output fsm) as [[[]|e] fso].
  - destruct H as (err & _ & H). rewrite H in Hrun. simplify_eq.
    by rewrite lookup_insert_ne.
  - destruct H as [_ H]. rewrite H in Hrun. by simplify_eq.
Qed.

Lemma aggregate_files_failure (fs fs' : filesystem) (e : exn) :
  fs_wf fs = true →
  aggregate_files root ext output gitignore_spec fs = (Raise e, fs') →
  fs' = fs.
Proof.
  intros Hwf Hrun.
  destruct (decide (files fs = [])) as [Hnil|Hne].
  { rewrite aggregate_files_unfold in Hrun. cbv zeta in Hrun. rewrite Hnil in Hrun.
    by simplify_eq. }
  pose proof (aggregate_files_run root ext output gitignore_spec fs Hne) as H.
  destruct (mkdir_parents (Path.parent output) fs) as [[[]|e0] fsm] eqn:Hmk.
  2:{ destruct H as [_ H]. rewrite H in Hrun. by simplify_eq. }
  pose proof (mkdir_parents_post _ _ _ _ Hmk) as (Hparent & Hkeep & Hnew).
  destruct (open_w output fsm) as [[[]|e1] fso] eqn:Hop.
  { destruct H as (err & _ & H). rewrite H in Hrun. by simplify_eq. }
  destruct H as [_ H]. rewrite H in Hrun. simplify_eq.
  (* the output was there, so its parent directory was too *)
  assert (is_dir fs (Path.parent output)) as Hpd.
  { assert (is_Some (fs' !! output)) as [eo Ho].
    { unfold open_w in Hop. destruct (fs' !! output) as [eo|] eqn:Ho; [by eexists|].
      unfold is_dir in Hparent. by destruct (fs' !! Path.parent output) as [[]|]. }
    destruct (fs !! output) as [eo'|] eqn:Hfo.
    - destruct (decide (output = [])) as [->|Hne0].
      + unfold is_dir in *. change (Path.parent []) with (@nil string) in *.
        rewrite (Hkeep _ _ Hfo) in Hparent. by rewrite Hfo.
      + apply fs_wf_parent; [done| |done]. by rewrite Hfo.
    - destruct (Hnew _ Hfo) as [?|[_ Hpre]]; [congruence|].
      destruct (decide (output = [])) as [->|Hne0].
      + unfold mkdir_parents in Hmk. cbn in Hmk.
        unfold try_except, os_mkdir in Hmk. change (reverse []) with (@nil string) in Hmk.
        change (Path.parent []) with (@nil string) in Hmk. rewrite Hfo in Hmk.
        by simplify_eq.
      + apply prefix_length in Hpre. unfold Path.parent in Hpre.
        rewrite length_take in Hpre. destruct output; [done|simpl in Hpre; lia]. }
  rewrite (mkdir_parents_is_dir _ _ Hpd) in Hmk. by simplify_eq.
Qed.

Lemma aggregate_files_wf (fs fs' : filesystem) (r : result nat) :
  fs_wf fs = true →
  aggregate_files root ext output gitignore_spec fs = (r, fs') →
  fs_wf fs' = true.
Proof.
  intros Hwf Hrun.
  destruct (decide (files fs = [])) as [Hnil|Hne].
  { rewrite aggregate_files_unfold in Hrun. cbv zeta in Hrun. rewrite Hnil in Hrun.
    by simplify_eq. }
  pose proof (aggregate_files_run root ext output gitignore_spec fs Hne) as H.
  destruct (mkdir_parents (Path.parent output) fs) as [[[]|e0] fsm] eqn:Hmk.
  2:{ destruct H as [_ H]. rewrite H in Hrun. by simplify_eq. }
  pose proof (mkdir_parents_wf _ _ _ _ Hwf Hmk) as Hwfm.
  apply mkdir_parents_post in Hmk as (Hparent & _ & _).
  destruct (open_w output fsm) as [[[]|e1] fso] eqn:Hop.
  2:{ destruct H as [_ H]. rewrite H in Hrun. by simplify_eq. }
  destruct H as (err & _ & H). rewrite H in Hrun. simplify_eq.
  apply open_w_inv in Hop as (err' & _ & Hwas).
  assert (¬ is_dir fsm output) as Hnd.
  { unfold is_dir. destruct Hwas as [Hw|(f & Hw & _)]; rewrite Hw; simpl; tauto. }
  apply fs_wf_intro. intros p k Hp Hk.
  assert (is_dir fsm (take k p)) as Hdir.
  { destruct (decide (p = output)) as [->|Hpo].
    - destruct (decide (take k output = Path.parent output)) as [->|Hne2]; [done|].
      apply (fs_wf_prefix fsm (Path.parent output)); [done| |by apply prefix_parent; 
        [apply prefix_take|intros Heq; apply (f_equal length) in Heq;
                           rewrite length_take in Heq; lia]|done].
      unfold is_dir in Hparent. by destruct (fsm !! Path.parent output).
    - rewrite lookup_insert_ne in Hp by done. by apply fs_wf_spec. }
  by apply is_dir_insert_file.
Qed.

Lemma aggregate_files_ok_place (fs fs' : filesystem) (n : nat) :
  fs_wf fs = true →
  files fs ≠ [] →
  aggregate_files root ext output gitignore_spec fs = (Ok n, fs') →
  ¬ is_dir fs output
  ∧ ∀ q, q `prefix_of` output → q ≠ output → fs !! q = None ∨ is_dir fs q.
Proof.
  intros Hwf Hne Hrun.
  pose proof (aggregate_files_run root ext output gitignore_spec fs Hne) as H.
  destruct (mkdir_parents (Path.parent output) fs) as [[[]|e0] fsm] eqn:Hmk.
  2:{ destruct H as [_ H]. rewrite H in Hrun. by simplify_eq. }
  pose proof (mkdir_parents_chain _ _ _ Hwf Hmk) as Hchain.
  apply mkdir_parents_post in Hmk as (_ & Hkeep & _).
  destruct (open_w output fsm) as [[[]|e1] fso] eqn:Hop.
  2:{ destruct H as [_ H]. rewrite H in Hrun. by simplify_eq. }
  apply open_w_inv in Hop as (err' & _ & Hwas). split.
  - unfold is_dir. destruct (fs !! output) as [eo|] eqn:Ho; [|tauto].
    apply Hkeep in Ho as Hmo.
    destruct Hwas as [Hw|(f & Hw & _)]; rewrite Hw in Hmo; simplify_eq. tauto.
  - intros q Hq Hqo. pose proof (Hchain q (prefix_parent _ _ Hq Hqo)) as Hd.
    destruct (fs !! q) as [eq|] eqn:Hfq; [right|by left].
    unfold is_dir in *. rewrite Hfq. by rewrite (Hkeep _ _ Hfq) in Hd.
Qed.

End run_effects.

Lemma is_dir_insert_file_eq (fs : filesystem) (output q : path) (f f' : file) :
  fs !! output = Some (EFile f) →
  is_dir (<[output := EFile f']> fs) q = is_dir fs q.
Proof.
  intros Ho. unfold is_dir. destruct (decide (output = q)) as [<-|Hne].
  - by rewrite lookup_insert_eq, Ho.
  - by rewrite lookup_insert_ne.
Qed.

(** The candidates do not depend on what the output file holds. *)
Lemma sorted_files_insert_file (fs : filesystem) (root : path) (ext : string)
    (output : path) (gitignore_spec : option (string → bool)) (f f' : file) :
  fs !! output = Some (EFile f) →
  sorted_files (<[output := EFile f']> fs) root ext output gitignore_spec
  = sorted_files fs root ext output gitignore_spec.
Proof.
  intros Ho.
  apply (StronglySorted_unique Path.le); [apply sorted_files_sorted..|].
  apply NoDup_Permutation; [apply NoDup_sorted_files..|].
  intros p. rewrite !elem_of_sorted_files, !elem_of_rglob.
  assert (keep (<[output := EFile f']> fs) root ext output gitignore_spec p
          = keep fs root ext output gitignore_spec p) as ->.
  { unfold keep. destruct (decide (p = output)) as [->|Hne].
    - rewrite bool_decide_true by done. simpl. by rewrite !andb_false_r.
    - by rewrite is_file_insert_ne. }
  assert (is_Some (<[output := EFile f']> fs !! p) ↔ is_Some (fs !! p)) as ->.
  { destruct (decide (output = p)) as [<-|Hne].
    - rewrite lookup_insert_eq, Ho. split; eauto.
    - by rewrite lookup_insert_ne. }
  assert (reachable (<[output := EFile f']> fs) root p ↔ reachable fs root p) as ->; [|done].
  split; apply reachable_mono; intros q; by rewrite (is_dir_insert_file_eq _ _ _ f).
Qed.

Lemma files_root_is_dir (fs : filesystem) (root : path) (ext : string) (output : path)
    (gitignore_spec : option (string → bool)) :
  sorted_files fs root ext output gitignore_spec ≠ [] → is_dir fs root.
Proof.
  destruct (sorted_files fs root ext output gitignore_spec) as [|p l] eqn:Hfiles; [done|].
  intros _.
  assert (p ∈ sorted_files fs root ext output gitignore_spec) as Hp.
  { rewrite Hfiles. apply list_elem_of_here. }
  apply elem_of_sorted_files in Hp as [_ Hp]. apply elem_of_rglob in Hp as [Hp _].
  apply reachable_spec in Hp as [(rel & Hrel & ->) Hdirs].
  specialize (Hdirs (length root)). rewrite take_app_length in Hdirs. apply Hdirs.
  rewrite length_app. destruct rel; [done|simpl; lia].
Qed.

(** When the output lies in the root directory, or in a directory above it,
    no directory is missing and the output is the only path a run touches. *)
Lemma aggregate_files_beside_root (root : path) (ext : string) (output : path)
    (gitignore_spec : option (string → bool)) (fs fs' : filesystem) (r : result nat)
    (q : path) :
  fs_wf fs = true →
  Path.parent output `prefix_of` root →
  aggregate_files root ext output gitignore_spec fs = (r, fs') →
  q ≠ output →
  fs' !! q = fs !! q.
Proof.
  intros Hwf Hparent Hrun Hq.
  pose proof (aggregate_files_frame root ext output gitignore_spec fs fs' r q Hrun Hq)
    as Hframe.
  destruct (fs !! q) as [e|] eqn:Hfs; [done|].
  destruct Hframe as [?|[Hnew Hpre]]; [done|]. exfalso.
  destruct (decide (sorted_files fs root (Str.lower ext) output gitignore_spec = []))
    as [Hnil|Hne].
  { rewrite aggregate_files_unfold in Hrun. cbv zeta in Hrun. rewrite Hnil in Hrun.
    simplify_eq. }
  apply files_root_is_dir in Hne.
  assert (is_dir fs q) as Hdir.
  { destruct (decide (q = root)) as [->|Hneq]; [done|].
    apply (fs_wf_prefix fs root); [done| |by etrans|done].
    unfold is_dir in Hne. by destruct (fs !! root). }
  unfold is_dir in Hdir. by rewrite Hfs in Hdir.
Qed.

(** ** A second run *)

Lemma aggregate_files_twice (root : path) (ext : string) (output : path)
    (gitignore_spec : option (string → bool)) (fs fs1 : filesystem) (r : result nat) :
  fs_wf fs = true →
  aggregate_files root ext output gitignore_spec fs = (r, fs1) →
  aggregate_files root ext output gitignore_spec fs1 = (r, fs1).
Proof.
  intros Hwf Hrun.
  destruct (decide (sorted_files fs root (Str.lower ext) output gitignore_spec = []))
    as [Hnil|Hne].
  { rewrite aggregate_files_unfold in Hrun. cbv zeta in Hrun. rewrite Hnil in Hrun.
    simplify_eq. rewrite aggregate_files_unfold. cbv zeta. by rewrite Hnil. }
  pose proof (aggregate_files_run root ext output gitignore_spec fs Hne) as Hfst.
  destruct (mkdir_parents (Path.parent output) fs) as [[[]|e] fsm] eqn:Hmk.
  2:{ destruct Hfst as [-> Hfst]. rewrite Hfst in Hrun. by simplify_eq. }
  apply mkdir_parents_post in Hmk.
  pose proof (mkdir_post_is_dir _ _ _ _ Hmk) as Hdirs.
  pose proof (mkdir_post_is_file _ _ _ _ Hmk) as Hfiles.
  destruct Hmk as (Hparent & Hkeep & _).
  destruct (open_w output fsm) as [[[]|e] fso] eqn:Hop.
  - (* the first run wrote the output *)
    destruct Hfst as (err & -> & Hfst). rewrite Hfst in Hrun. simplify_eq.
    apply open_w_inv in Hop as (err' & Heq & Hwas).
    assert (¬ is_dir fsm output) as Hnd.
    { unfold is_dir. destruct Hwas as [Hw|(f & Hw & _)]; rewrite Hw; simpl; tauto. }
    set (B := String.concat "" _).
    set (fs1 := <[output := EFile (File B err)]> fsm).
    assert (sorted_files fs1 root (Str.lower ext) output gitignore_spec
            = sorted_files fs root (Str.lower ext) output gitignore_spec) as Hsame.
    { apply sorted_files_same; [done|..].
      - intros q Hq. by apply is_dir_insert_file, Hdirs.
      - intros p Hp. unfold fs1. by rewrite is_file_insert_ne, Hfiles. }
    assert (sorted_files fs1 root (Str.lower ext) output gitignore_spec ≠ []) as Hne1.
    { by rewrite Hsame. }
    pose proof (aggregate_files_run root ext output gitignore_spec fs1 Hne1) as Hsnd.
    rewrite mkdir_parents_is_dir in Hsnd.
    2:{ apply is_dir_insert_file; [done..|]. done. }
    assert (open_w output fs1 = (Ok tt, <[output := EFile (File "" err)]> fs1)) as Hop1.
    { unfold open_w, fs1. by rewrite lookup_insert_eq. }
    rewrite Hop1 in Hsnd. destruct Hsnd as (err1 & Herr & ->).
    assert (err1 = err) as ->.
    { apply (f_equal (λ m : filesystem, m !! output)) in Herr.
      rewrite !lookup_insert_eq in Herr. by simplify_eq. }
    rewrite Hsame. unfold fs1 at 2 3. rewrite insert_insert_eq.
    assert (file_block fs1 root <$> sorted_files fs root (Str.lower ext) output gitignore_spec
            = file_block fs root <$> sorted_files fs root (Str.lower ext) output gitignore_spec)
      as ->; [|done].
    apply Forall_fmap_ext, Forall_forall. intros p Hp.
    unfold fs1. rewrite file_block_insert_ne.
    2:{ intros <-. by apply output_not_in_files in Hp. }
    destruct (files_are_files _ _ _ _ _ _ Hp) as [f Hf].
    unfold file_block, content_of, read_text. rewrite Hf, (Hkeep _ _ Hf).
    by destruct (read_error f).
  - (* the output could not be opened *)
    destruct Hfst as [-> Hfst]. rewrite Hfst in Hrun. simplify_eq.
    assert (sorted_files fs1 root (Str.lower ext) output gitignore_spec
            = sorted_files fs root (Str.lower ext) output gitignore_spec) as Hsame.
    { apply sorted_files_same; [done|done|]. intros p _. apply Hfiles. }
    assert (sorted_files fs1 root (Str.lower ext) output gitignore_spec ≠ []) as Hne1.
    { by rewrite Hsame. }
    pose proof (aggregate_files_run root ext output gitignore_spec fs1 Hne1) as Hsnd.
    rewrite mkdir_parents_is_dir, Hop in Hsnd by done. by destruct Hsnd.
Qed.

(** ** Filters and suffixes *)

Lemma rfind_Some_drop (c : ascii) (s : string) (i : nat) :
  Str.rfind c s = Some i → ∃ t, Str.drop i s = String c t ∧ Str.count c t = 0.
Proof.
  revert i. induction s as [|a s IH]; intros i; simpl; [done|].
  destruct (Str.rfind c s) as [j|] eqn:Hr.
  - intros [= <-]. simpl. by apply IH.
  - destruct (Ascii.eqb_spec a c) as [->|]; [|done]. intros [= <-]. simpl.
    exists s. split; [done|]. by apply rfind_None_count.
Qed.

Lemma suffix_shape (p : path) :
  Path.suffix p = "" ∨ suffix_like (Path.suffix p) = true.
Proof.
  unfold Path.suffix. destruct (Str.rfind "." (Path.name p)) as [i|] eqn:Hr; [|by left].
  destruct (0 <? i) eqn:Hi; simpl; [|by left].
  destruct (i <? String.length (Path.name p) - 1) eqn:Hlt; [|by left]. right.
  destruct (rfind_Some_drop _ _ _ Hr) as (t & Ht & Hcount).
  apply Nat.ltb_lt in Hlt. pose proof (str_length_drop i (Path.name p)) as Hlen.
  rewrite Ht in Hlen |- *. simpl in *. rewrite Hcount.
  destruct t; [simpl in Hlen; lia|done].
Qed.

Lemma suffix_like_lower (s : string) : suffix_like (Str.lower s) = suffix_like s.
Proof.
  destruct s as [|c e]; [done|]. simpl.
  rewrite lower_char_dot, str_count_lower. do 2 f_equal.
  by destruct e.
Qed.

(** ** Paths of the command line *)

Lemma step_plain (cur : path) (cs : list string) :
  ".." ∉ cs → foldl Pure.step cur cs = cur ++ cs.
Proof.
  revert cur. induction cs as [|c cs IH]; intros cur Hcs; simpl.
  { by rewrite app_nil_r. }
  apply not_elem_of_cons in Hcs as [Hc Hcs]. rewrite IH by done.
  unfold Pure.step. destruct (String.eqb_spec c ".."); [done|].
  by rewrite <-app_assoc.
Qed.

Lemma walk_plain (fs : filesystem) (cur : path) (cs : list string) (q : path) :
  ".." ∉ cs → Pure.walk fs cur cs = Some q → q = cur ++ cs.
Proof.
  revert cur. induction cs as [|c cs IH]; intros cur Hcs; simpl.
  { intros [= <-]. by rewrite app_nil_r. }
  apply not_elem_of_cons in Hcs as [Hc Hcs].
  destruct (is_dir fs cur); [|done]. intros ->%IH; [|done].
  unfold Pure.step. destruct (String.eqb_spec c ".."); [done|].
  by rewrite <-app_assoc.
Qed.

Lemma walk_wf (fs : filesystem) (cur : path) (cs : list string) :
  fs_wf fs = true → ".." ∉ cs → is_Some (fs !! (cur ++ cs)) →
  Pure.walk fs cur cs = Some (cur ++ cs).
Proof.
  intros Hwf. revert cur. induction cs as [|c cs IH]; intros cur Hcs Hex; simpl.
  { by rewrite app_nil_r. }
  apply not_elem_of_cons in Hcs as [Hc Hcs].
  assert (is_dir fs cur) as Hcur.
  { apply (fs_wf_prefix fs (cur ++ c :: cs)); [done..|by apply prefix_app_r|].
    intros Heq. apply (f_equal length) in Heq. rewrite length_app in Heq.
    simpl in Heq. lia. }
  apply Is_true_true in Hcur. rewrite Hcur.
  unfold Pure.step. destruct (String.eqb_spec c ".."); [done|].
  replace (cur ++ c :: cs) with ((cur ++ [c]) ++ cs) in * by (by rewrite <-app_assoc).
  by apply IH.
Qed.

Lemma walk_app (fs : filesystem) (cur : path) (l1 l2 : list string) :
  Pure.walk fs cur (l1 ++ l2)
  = match Pure.walk fs cur l1 with
    | Some q => Pure.walk fs q l2
    | None => None
    end.
Proof.
  revert cur. induction l1 as [|c l1 IH]; intros cur; simpl; [done|].
  by destruct (is_dir fs cur).
Qed.

(** On a well-formed file system a path without [..] is found where
    [resolve] puts it. *)
Lemma is_file_plain (fs : filesystem) (cwd : path) (p : pure_path) :
  fs_wf fs = true → ".." ∉ parts p →
  Pure.is_file fs cwd p = is_file fs (Pure.resolve cwd p).
Proof.
  intros Hwf Hp. unfold Pure.is_file, Pure.locate, Pure.resolve.
  rewrite step_plain by done.
  set (start := if absolute p then [] else cwd).
  destruct (Pure.walk fs start (parts p)) as [q|] eqn:Hw.
  { by apply walk_plain in Hw as ->. }
  destruct (is_file fs (start ++ parts p)) eqn:Hf; [|done].
  destruct (parts p) as [|c cs] eqn:Hparts; [done|].
  rewrite walk_wf in Hw; [done..|].
  unfold is_file in Hf. by destruct (fs !! (start ++ c :: cs)).
Qed.

Lemma read_plain (fs : filesystem) (cwd : path) (p : pure_path) :
  fs_wf fs = true → ".." ∉ parts p → Pure.is_file fs cwd p = true →
  Pure.read cwd p fs = read_text (Pure.resolve cwd p) fs.
Proof.
  intros Hwf Hp. unfold Pure.is_file, Pure.read, Pure.locate, Pure.resolve.
  rewrite step_plain by done.
  destruct (Pure.walk fs _ (parts p)) as [q|] eqn:Hw; [|done].
  by apply walk_plain in Hw as ->.
Qed.

Lemma split_go_plain (cur s : string) :
  Str.count "/" s = 0 → Str.split_go "/" 0 cur s = [String.rev_app cur s].
Proof.
  revert cur. induction s as [|c s IH]; intros cur Hc; [done|].
  simpl in Hc. cbn [Str.split_go]. rewrite str_prefix_cons, str_prefix_nil, andb_true_r.
  rewrite Ascii.eqb_sym. destruct (Ascii.eqb c "/"); [done|].
  by rewrite IH.
Qed.

Lemma parse_plain (s : string) :
  Str.count "/" s = 0 → s ≠ "" → s ≠ "." →
  Pure.parse s = {| absolute := false; parts := [s] |}.
Proof.
  intros Hc Hs Hd. unfold Pure.parse, Str.split. rewrite split_go_plain by done.
  cbn [String.rev_app]. f_equal.
  - destruct s as [|c s]; [done|]. unfold Str.startswith.
    rewrite str_prefix_cons, str_prefix_nil, andb_true_r, Ascii.eqb_sym.
    simpl in Hc. by destruct (Ascii.eqb c "/").
  - rewrite filter_cons. by destruct (decide _) as [|[]].
Qed.

Lemma absolute_div (p q : pure_path) :
  absolute (Pure.div p q) = absolute q || absolute p.
Proof. unfold Pure.div. by destruct (absolute q) eqn:Hq. Qed.

Lemma main_out_path_div (root : pure_path) (ext : string) (output : option string) :
  main_out_path root ext output = Pure.div root (main_out_arg ext output).
Proof.
  unfold main_out_path, main_out_arg. destruct output as [[|c o]|]; [done| |done].
  unfold Pure.div. by destruct (absolute (Pure.parse (String c o))).
Qed.

Lemma main_gitignore_path_div (root : pure_path) (gitignore : string) :
  main_gitignore_path root gitignore = Pure.div root (Pure.parse gitignore).
Proof.
  unfold main_gitignore_path, Pure.div. by destruct (absolute (Pure.parse gitignore)).
Qed.

Lemma resolve_absolute (cwd1 cwd2 : path) (p : pure_path) :
  absolute p = true → Pure.resolve cwd1 p = Pure.resolve cwd2 p.
Proof. unfold Pure.resolve. by intros ->. Qed.

Lemma locate_absolute (fs : filesystem) (cwd1 cwd2 : path) (p : pure_path) :
  absolute p = true → Pure.locate fs cwd1 p = Pure.locate fs cwd2 p.
Proof. unfold Pure.locate. by intros ->. Qed.

Lemma resolve_div (cwd : path) (root q : pure_path) :
  absolute q = false →
  Pure.resolve cwd (Pure.div root q) = foldl Pure.step (Pure.resolve cwd root) (parts q).
Proof.
  intros Hq. unfold Pure.div, Pure.resolve. rewrite Hq. simpl. by rewrite foldl_app.
Qed.

Lemma str_count_append (c : ascii) (s t : string) :
  Str.count c (s +:+ t) = Str.count c s + Str.count c t.
Proof.
  induction s as [|a s IH]; [done|]. rewrite str_append_cons. simpl. rewrite IH. lia.
Qed.

Lemma main_ext_count (c : ascii) (ext : string) :
  c ≠ "."%char → Str.count c (main_ext ext) = Str.count c ext.
Proof.
  intros Hc. unfold main_ext. destruct (negb _); [|done].
  rewrite str_count_append. cbn [Str.count].
  destruct (Ascii.eqb_spec "." c) as [<-|]; [done|lia].
Qed.

Lemma parent_snoc (p : path) (c : string) : Path.parent (p ++ [c]) = p.
Proof.
  unfold Path.parent. rewrite length_app. simpl.
  replace (length p + 1 - 1) with (length p) by lia. apply take_app_length.
Qed.

Lemma parse_dot : Pure.parse "." = {| absolute := false; parts := [] |}.
Proof. by vm_compute. Qed.

Lemma resolve_div_from (cwd : path) (root q : pure_path) :
  Pure.resolve cwd (Pure.div root q)
  = Pure.resolve (Pure.resolve cwd root) (Pure.div (Pure.parse ".") q).
Proof.
  rewrite parse_dot. unfold Pure.div, Pure.resolve.
  destruct q as [[] ps]; simpl; [done|]. by rewrite foldl_app.
Qed.

Lemma locate_div_from (fs : filesystem) (cwd : path) (root q : pure_path) :
  fs_wf fs = true →
  ".." ∉ parts root →
  is_dir fs (Pure.resolve cwd root) →
  Pure.locate fs cwd (Pure.div root q)
  = Pure.locate fs (Pure.resolve cwd root) (Pure.div (Pure.parse ".") q).
Proof.
  intros Hwf Hdots Hdir. rewrite parse_dot. unfold Pure.div, Pure.locate.
  destruct q as [[] ps]; simpl; [done|]. rewrite walk_app.
  unfold Pure.resolve in *. rewrite step_plain in * by done.
  rewrite walk_wf; [done..|]. unfold is_dir in Hdir.
  by destruct (fs !! _).
Qed.

(** ** The steps of [main] *)

Lemma main_unfold (from_lines : string → result (string → bool)) (cwd : path)
    (a : args) (fs : filesystem) :
  main from_lines cwd a fs =
  let root := Pure.parse (arg_root a) in
  let ext := main_ext (arg_ext a) in
  let out_path := main_out_path root ext (arg_output a) in
  match main_gitignore_spec from_lines cwd root (arg_gitignore a) fs with
  | (Raise e, fs0) => (Raise e, fs0)
  | (Ok gitignore_spec, fs0) =>
      match aggregate_files (Pure.resolve cwd root) ext (Pure.resolve cwd out_path)
                            gitignore_spec fs0 with
      | (Raise e, fs1) => (Raise e, fs1)
      | (Ok _, fs1) => (Ok tt, fs1)
      end
  end.
Proof.
  unfold main, bind. cbv zeta.
  destruct (main_gitignore_spec _ _ _ _ fs) as [[spec|e] fs0]; [|done].
  by destruct (aggregate_files _ _ _ _ fs0) as [[n|e] fs1].
Qed.

Lemma main_gitignore_spec_state (from_lines : string → result (string → bool))
    (cwd : path) (root : pure_path) (gitignore : string) (fs fs' : filesystem)
    (r : result (option (string → bool))) :
  main_gitignore_spec from_lines cwd root gitignore fs = (r, fs') → fs' = fs.
Proof.
  unfold main_gitignore_spec. destruct gitignore as [|c g]; [by intros [= <- <-]|].
  unfold bind, gets, Pure.read, read_text, ret, raise.
  destruct (Pure.is_file fs cwd _); [|by intros [= <- <-]].
  destruct (Pure.locate fs cwd _) as [q|]; [|by intros [= <- <-]].
  destruct (fs !! q) as [[[t [msg|]]| |]|]; simpl; try by intros [= <- <-].
  destruct (from_lines t); by intros [= <- <-].
Qed.

Lemma main_gitignore_spec_plain (from_lines : string → result (string → bool))
    (cwd : path) (root : pure_path) (gitignore : string) (fs : filesystem) :
  fs_wf fs = true → gitignore ≠ "" →
  ".." ∉ parts (main_gitignore_path root gitignore) →
  main_gitignore_spec from_lines cwd root gitignore fs
  = (spec_of from_lines (fs !! Pure.resolve cwd (main_gitignore_path root gitignore)), fs).
Proof.
  intros Hwf Hg Hp. unfold main_gitignore_spec. destruct gitignore as [|c g]; [done|].
  unfold bind, gets. cbv zeta.
  pose proof (is_file_plain fs cwd _ Hwf Hp) as Hfile.
  destruct (Pure.is_file fs cwd _) eqn:Hfound.
  - rewrite read_plain by done. unfold read_text, spec_of. symmetry in Hfile.
    unfold is_file in Hfile.
    destruct (fs !! Pure.resolve cwd _) as [[[t [msg|]]| |]|]; try done.
    unfold ret, raise. simpl. by destruct (from_lines t).
  - unfold ret, spec_of. symmetry in Hfile. unfold is_file in Hfile.
    by destruct (fs !! Pure.resolve cwd _) as [[]|].
Qed.

Lemma spec_of_frame (from_lines : string → result (string → bool))
    (fs fs' : filesystem) (output q : path) :
  q ≠ output →
  (∀ q, q ≠ output →
     match fs !! q with
     | Some e => fs' !! q = Some e
     | None => fs' !! q = None
               ∨ (fs' !! q = Some EDir ∧ q `prefix_of` Path.parent output)
     end) →
  spec_of from_lines (fs' !! q) = spec_of from_lines (fs !! q).
Proof.
  intros Hq Hframe. specialize (Hframe q Hq).
  destruct (fs !! q) as [e|]; [by rewrite Hframe|].
  by destruct Hframe as [->|[-> _]].
Qed.

Lemma main_gitignore_spec_locate (from_lines : string → result (string → bool))
    (cwd1 cwd2 : path) (root1 root2 : pure_path)
    (gitignore : string) (fs : filesystem) :
  Pure.locate fs cwd1 (main_gitignore_path root1 gitignore)
  = Pure.locate fs cwd2 (main_gitignore_path root2 gitignore) →
  main_gitignore_spec from_lines cwd1 root1 gitignore fs
  = main_gitignore_spec from_lines cwd2 root2 gitignore fs.
Proof.
  intros Hloc. unfold main_gitignore_spec. destruct gitignore as [|c g]; [done|].
  unfold bind, gets, Pure.is_file, Pure.read. cbv zeta. rewrite Hloc.
  destruct (match Pure.locate fs cwd2 _ with Some q => is_file fs q | None => false end);
    [|done].
  cbv beta. by rewrite Hloc.
Qed.

Lemma main_default_out_path (cwd : path) (root : pure_path) (ext : string)
    (output : option string) :
  output = None ∨ output = Some "" →
  Str.count "/" ext = 0 →
  Pure.resolve cwd (main_out_path root ext output)
  = Pure.resolve cwd root ++ ["aggregated" +:+ ext].
Proof.
  intros Hout Hext.
  assert (main_out_path root ext output = Pure.div root (Pure.parse ("aggregated" +:+ ext)))
    as -> by (by destruct Hout as [->| ->]).
  change ("aggregated" +:+ ext) with (String "a" ("ggregated" +:+ ext)).
  rewrite parse_plain; [| |done..].
  2:{ change (String "a" ("ggregated" +:+ ext)) with ("aggregated" +:+ ext).
      rewrite str_count_append, Hext. by vm_compute. }
  rewrite resolve_div by done. simpl. unfold Pure.step.
  by destruct (String.eqb_spec (String "a" ("ggregated" +:+ ext)) "..").
Qed.

Lemma aggregate_files_lower (root : path) (ext : string) (output : path)
    (gitignore_spec : option (string → bool)) (fs : filesystem) :
  aggregate_files root ext output gitignore_spec fs
  = aggregate_files root (Str.lower ext) output gitignore_spec fs.
Proof. unfold aggregate_files. by rewrite lower_idemp. Qed.

Lemma main_ext_dot (e : string) :
  main_ext ("." +:+ e) = "." +:+ e
  ∧ (Str.startswith "." e = false → main_ext e = "." +:+ e).
Proof.
  split.
  - unfold main_ext, Str.startswith. rewrite str_append_cons, str_prefix_cons.
    by rewrite str_prefix_nil.
  - intros Hdot. unfold main_ext. by rewrite Hdot.
Qed.

(** * The claims *)

(** C1 (amended).  The list [files] that a run aggregates holds exactly the
    regular files reached below [root] through directories whose lowered
    suffix is the lowered filter, whose relative path the matcher does not
    match and which are not the output; no file is listed twice; the list is
    in ascending order of the paths as Python orders [Path] objects, that is
    component by component, and so is the list of the relative paths. *)
Theorem files_set_and_order (fs : filesystem) (root : path) (ext : string)
    (output : path) (gitignore_spec : option (string → bool)) :
  let files := sorted_files fs root (Str.lower ext) output gitignore_spec in
  (∀ p, p ∈ files ↔
        reachable fs root p ∧ is_file fs p
        ∧ Str.lower (Path.suffix p) = Str.lower ext
        ∧ matched gitignore_spec (Path.as_posix (Path.relative_to root p)) = false
        ∧ p ≠ output)
  ∧ NoDup files
  ∧ StronglySorted Path.le files
  ∧ StronglySorted Path.le (Path.relative_to root <$> files).
Proof.
  cbv zeta.
  assert (∀ p, p ∈ sorted_files fs root (Str.lower ext) output gitignore_spec ↔
        reachable fs root p ∧ is_file fs p
        ∧ Str.lower (Path.suffix p) = Str.lower ext
        ∧ matched gitignore_spec (Path.as_posix (Path.relative_to root p)) = false
        ∧ p ≠ output) as Hmem.
  { intros p. rewrite elem_of_sorted_files, elem_of_rglob, keep_spec.
    split; [tauto|]. intros (Hr & Hf & Hs & Hm & Hne). repeat split; try done.
    unfold is_file in Hf. by destruct (fs !! p). }
  split; [done|]. split; [apply NoDup_sorted_files|].
  split; [apply sorted_files_sorted|].
  apply sorted_relative; [|apply sorted_files_sorted].
  apply Forall_forall. intros p [Hr _]%Hmem.
  unfold reachable in Hr. by apply andb_True in Hr as [? _].
Qed.

(** C1, as stated, fails: with [a/b.txt] and [a.txt] below the root, the
    files are written in the order [a/b.txt], [a.txt], which is not the
    order of the relative path strings. *)
Lemma files_not_in_string_order :
  sorted_files Ex.nested Ex.root (Str.lower ".txt") Ex.output None
  = [["r"; "a"; "b.txt"]; ["r"; "a.txt"]]
  ∧ ¬ posix_sorted Ex.root
        (sorted_files Ex.nested Ex.root (Str.lower ".txt") Ex.output None).
Proof.
  assert (sorted_files Ex.nested Ex.root (Str.lower ".txt") Ex.output None
          = [["r"; "a"; "b.txt"]; ["r"; "a.txt"]]) as Heq by (by vm_compute).
  split; [done|]. rewrite Heq. unfold posix_sorted. intros Hs.
  apply StronglySorted_cons in Hs as [Hall _]. apply Forall_cons in Hall as [Hle _].
  by vm_compute in Hle.
Qed.

(** C2.  When a run over a non-empty list of files returns, the output file
    holds, for each file in order, its block: the relative path and a
    newline, the content as [read_text] decodes it, a newline if the content
    does not end with one, the line of 80 dashes and one blank line. *)
Theorem output_format (root : path) (ext : string) (output : path)
    (gitignore_spec : option (string → bool)) (fs fs' : filesystem) (n : nat) :
  aggregate_files root ext output gitignore_spec fs = (Ok n, fs') →
  sorted_files fs root (Str.lower ext) output gitignore_spec ≠ [] →
  (∃ err, fs' !! output
          = Some (EFile (File (String.concat ""
                    (file_block fs root
                       <$> sorted_files fs root (Str.lower ext) output gitignore_spec)) err)))
  ∧ ∀ p content, fs !! p = Some (EFile (File content None)) →
      file_block fs root p
      = Path.as_posix (Path.relative_to root p) +:+ Str.newline
        +:+ content
        +:+ (if Str.endswith Str.newline content then "" else Str.newline)
        +:+ Str.replicate 80 "-" +:+ Str.newline +:+ Str.newline.
Proof.
  intros Hrun Hne. split.
  - eapply aggregate_files_written; [done|]. intros ->.
    rewrite aggregate_files_unfold in Hrun. cbv zeta in Hrun.
    destruct (sorted_files fs root (Str.lower ext) output gitignore_spec); [done|].
    destruct (mkdir_parents _ fs) as [[[]|?] ?]; [|done].
    destruct (open_w output _) as [[[]|?] ?]; [|done].
    by destruct (write_all _ _ _ _) as [[[]|?] ?].
  - intros p content Hp. unfold file_block, content_of, read_text. by rewrite Hp.
Qed.

Lemma output_format_witness :
  sorted_files Ex.scenario Ex.root (Str.lower ".txt") Ex.output Ex.ignore_spec ≠ []
  ∧ text_at (aggregate_files Ex.root ".txt" Ex.output Ex.ignore_spec Ex.scenario).2 Ex.output
    = String.concat ""
        (file_block Ex.scenario Ex.root
           <$> sorted_files Ex.scenario Ex.root (Str.lower ".txt") Ex.output Ex.ignore_spec).
Proof.
  assert (sorted_files Ex.scenario Ex.root (Str.lower ".txt") Ex.output Ex.ignore_spec ≠ [])
    as Hne by (by vm_compute).
  split; [done|].
  destruct (output_format Ex.root ".txt" Ex.output Ex.ignore_spec Ex.scenario
              (aggregate_files Ex.root ".txt" Ex.output Ex.ignore_spec Ex.scenario).2 3)
    as [[err Herr] _]; [by apply run_pair; vm_compute|done|].
  unfold text_at. by rewrite Herr.
Defined.

(** C3.  The output path is never among the files of its own run, whatever
    its place and extension: not in the list built by the loop, not in the
    sorted list, and the text a run writes is made of the blocks of that list
    alone. *)
Theorem output_never_a_candidate (root : path) (ext : string) (output : path)
    (gitignore_spec : option (string → bool)) (fs : filesystem) :
  (output ∉ collect fs root (Str.lower ext) output gitignore_spec)
  ∧ (output ∉ sorted_files fs root (Str.lower ext) output gitignore_spec)
  ∧ ∀ n fs', aggregate_files root ext output gitignore_spec fs = (Ok n, fs') →
      n ≠ 0 →
      ∃ err, fs' !! output
             = Some (EFile (File (String.concat ""
                       (file_block fs root
                          <$> sorted_files fs root (Str.lower ext) output gitignore_spec)) err)).
Proof.
  split; [|split].
  - intros Hin. apply (output_not_in_files root ext output gitignore_spec fs).
    unfold sorted_files. by rewrite merge_sort_Permutation.
  - apply output_not_in_files.
  - intros n fs' Hrun Hn. by eapply aggregate_files_written.
Qed.

Lemma output_never_a_candidate_witness :
  is_file Ex.scenario Ex.output = true
  ∧ Path.below Ex.root Ex.output = true
  ∧ Str.lower (Path.suffix Ex.output) = ".txt"
  ∧ (Ex.output ∉ sorted_files Ex.scenario Ex.root (Str.lower ".txt") Ex.output Ex.ignore_spec)
  ∧ text_at (aggregate_files Ex.root ".txt" Ex.output Ex.ignore_spec Ex.scenario).2 Ex.output
    = String.concat ""
        (file_block Ex.scenario Ex.root
           <$> sorted_files Ex.scenario Ex.root (Str.lower ".txt") Ex.output Ex.ignore_spec).
Proof.
  destruct (output_never_a_candidate Ex.root ".txt" Ex.output Ex.ignore_spec Ex.scenario)
    as (_ & Hout & Hrun).
  split; [done|]. split; [done|]. split; [done|]. split; [done|].
  destruct (Hrun 3 (aggregate_files Ex.root ".txt" Ex.output Ex.ignore_spec Ex.scenario).2)
    as [err Herr]; [by apply run_pair; vm_compute|done|].
  unfold text_at. by rewrite Herr.
Defined.

(** C4.  Once the output is open, the run returns the number of files
    whether or not each of them can be read; a file whose reading raises has
    the marker naming the exception in the place of its content. *)
Theorem read_failure_not_fatal (root : path) (ext : string) (output : path)
    (gitignore_spec : option (string → bool)) (fs fs1 fs2 : filesystem) :
  sorted_files fs root (Str.lower ext) output gitignore_spec ≠ [] →
  mkdir_parents (Path.parent output) fs = (Ok tt, fs1) →
  open_w output fs1 = (Ok tt, fs2) →
  (∃ err,
     aggregate_files root ext output gitignore_spec fs
     = (Ok (length (sorted_files fs root (Str.lower ext) output gitignore_spec)),
        <[output := EFile (File (String.concat ""
                     (file_block fs root
                        <$> sorted_files fs root (Str.lower ext) output gitignore_spec)) err)]>
          fs1))
  ∧ ∀ p content msg, fs !! p = Some (EFile (File content (Some msg))) →
      file_block fs root p
      = Path.as_posix (Path.relative_to root p) +:+ Str.newline
        +:+ ("[Error reading file: " +:+ msg +:+ "]") +:+ Str.newline
        +:+ separator +:+ Str.newline +:+ Str.newline.
Proof.
  intros Hne Hmk Hop. split.
  - pose proof (aggregate_files_run root ext output gitignore_spec fs Hne) as H.
    rewrite Hmk, Hop in H. destruct H as (err & _ & H). eauto.
  - intros p content msg Hp. unfold file_block.
    rewrite (content_of_unreadable _ _ _ _ Hp), <-(str_append_assoc _ msg "]").
    by rewrite endswith_closing.
Qed.

Lemma read_failure_not_fatal_witness :
  (Ex.scenario !! ["r"; "locked.TXT"]
   = Some (EFile (File "" (Some "[Errno 13] Permission denied"))))
  ∧ (["r"; "locked.TXT"]
       ∈ sorted_files Ex.scenario Ex.root (Str.lower ".txt") Ex.output Ex.ignore_spec)
  ∧ ((aggregate_files Ex.root ".txt" Ex.output Ex.ignore_spec Ex.scenario).1 = Ok 3)
  ∧ (file_block Ex.scenario Ex.root ["r"; "locked.TXT"]
     = "locked.TXT" +:+ Str.newline
       +:+ "[Error reading file: [Errno 13] Permission denied]" +:+ Str.newline
       +:+ separator +:+ Str.newline +:+ Str.newline).
Proof.
  assert (Ex.scenario !! ["r"; "locked.TXT"]
          = Some (EFile (File "" (Some "[Errno 13] Permission denied")))) as Hlocked
    by (by vm_compute).
  destruct (read_failure_not_fatal Ex.root ".txt" Ex.output Ex.ignore_spec Ex.scenario
              Ex.scenario (<[Ex.output := EFile (File "" None)]> Ex.scenario))
    as [[err Hrun] Hmark].
  { by vm_compute. }
  { apply mkdir_parents_is_dir. by vm_compute. }
  { apply (open_w_file _ _ (File "old output" None)). by vm_compute. }
  split; [done|]. split.
  { assert (sorted_files Ex.scenario Ex.root (Str.lower ".txt") Ex.output Ex.ignore_spec
            = [["r"; "a.txt"]; ["r"; "locked.TXT"]; ["r"; "sub"; "b.txt"]]) as ->
      by (by vm_compute).
    apply list_elem_of_further, list_elem_of_here. }
  split.
  - rewrite Hrun. by vm_compute.
  - by rewrite (Hmark ["r"; "locked.TXT"] "" "[Errno 13] Permission denied").
Defined.

(** C5 (amended).  When no relative path and no content of an aggregated
    file holds a run of 80 dashes, and no relative path holds a newline,
    splitting the output at the separator (the 80 dashes and the two
    newlines after them) gives one piece per file, in order, and one empty
    piece at the end; the first line of a piece is the relative path and the
    rest is the content, with a newline added when it had none at its end. *)
Theorem round_trip_without_separator (root : path) (ext : string) (output : path)
    (gitignore_spec : option (string → bool)) (fs fs' : filesystem) (n : nat) :
  aggregate_files root ext output gitignore_spec fs = (Ok n, fs') →
  n ≠ 0 →
  (∀ p, p ∈ sorted_files fs root (Str.lower ext) output gitignore_spec →
        Str.contains separator (Path.as_posix (Path.relative_to root p)) = false
        ∧ Str.count "010" (Path.as_posix (Path.relative_to root p)) = 0
        ∧ Str.contains separator (content_of fs p) = false) →
  round_trip fs root (sorted_files fs root (Str.lower ext) output gitignore_spec)
             (text_at fs' output).
Proof.
  intros Hrun Hn Hplain.
  destruct (aggregate_files_written _ _ _ _ _ _ _ Hrun Hn) as (_ & err & Hout).
  unfold round_trip, text_at. rewrite Hout. cbn [text].
  eexists. split.
  - apply split_blocks. intros p Hp. destruct (Hplain p Hp) as (? & _ & ?). done.
  - apply Forall2_fmap_r, Forall_Forall2_diag, Forall_forall. intros p Hp.
    destruct (Hplain p Hp) as (_ & Hnl & _).
    apply (first_line_append _ (with_final_newline (content_of fs p))) in Hnl.
    exact Hnl.
Qed.

Lemma round_trip_without_separator_witness :
  round_trip Ex.scenario Ex.root
    (sorted_files Ex.scenario Ex.root (Str.lower ".txt") Ex.output Ex.ignore_spec)
    (text_at (aggregate_files Ex.root ".txt" Ex.output Ex.ignore_spec Ex.scenario).2
             Ex.output).
Proof.
  apply (round_trip_without_separator Ex.root ".txt" Ex.output Ex.ignore_spec
           Ex.scenario _ 3).
  - by apply run_pair; vm_compute.
  - done.
  - assert (sorted_files Ex.scenario Ex.root (Str.lower ".txt") Ex.output Ex.ignore_spec
            = [["r"; "a.txt"]; ["r"; "locked.TXT"]; ["r"; "sub"; "b.txt"]]) as ->
      by (by vm_compute).
    intros p Hp. repeat (apply elem_of_cons in Hp as [->|Hp]); [by vm_compute..|].
    by apply elem_of_nil in Hp.
Defined.

(** C5, as stated, fails: a file whose content holds the separator gives
    more pieces than there are files. *)
Lemma round_trip_fails :
  sorted_files Ex.dashed Ex.root (Str.lower ".txt") Ex.output None = [["r"; "a.txt"]]
  ∧ Str.split block_sep
      (text_at (aggregate_files Ex.root ".txt" Ex.output None Ex.dashed).2 Ex.output)
    = ["a.txt" +:+ Str.newline; "x" +:+ Str.newline; ""]
  ∧ ¬ round_trip Ex.dashed Ex.root
        (sorted_files Ex.dashed Ex.root (Str.lower ".txt") Ex.output None)
        (text_at (aggregate_files Ex.root ".txt" Ex.output None Ex.dashed).2 Ex.output).
Proof.
  assert (sorted_files Ex.dashed Ex.root (Str.lower ".txt") Ex.output None
          = [["r"; "a.txt"]]) as Hfiles by (by vm_compute).
  assert (Str.split block_sep
            (text_at (aggregate_files Ex.root ".txt" Ex.output None Ex.dashed).2 Ex.output)
          = ["a.txt" +:+ Str.newline; "x" +:+ Str.newline; ""]) as Hsplit
    by (by vm_compute).
  split; [done|]. split; [done|].
  intros (pieces & Hpieces & Hall). rewrite Hfiles in Hall. rewrite Hsplit in Hpieces.
  apply Forall2_length in Hall. apply (f_equal length) in Hpieces.
  rewrite length_app in Hpieces. simpl in *. lia.
Qed.

(** C6.  On a well-formed file system, a second run with the same arguments
    ends as the first did and leaves the file system as the first left it:
    the same result, and the same bytes in the output file. *)
Theorem aggregate_files_idempotent (root : path) (ext : string) (output : path)
    (gitignore_spec : option (string → bool)) (fs fs1 : filesystem) (r : result nat) :
  fs_wf fs = true →
  aggregate_files root ext output gitignore_spec fs = (r, fs1) →
  aggregate_files root ext output gitignore_spec fs1 = (r, fs1).
Proof.
  intros Hwf Hrun.
  destruct (decide (sorted_files fs root (Str.lower ext) output gitignore_spec = []))
    as [Hnil|Hne].
  { rewrite aggregate_files_unfold in Hrun. cbv zeta in Hrun. rewrite Hnil in Hrun.
    simplify_eq. rewrite aggregate_files_unfold. cbv zeta. by rewrite Hnil. }
  pose proof (aggregate_files_run root ext output gitignore_spec fs Hne) as Hfst.
  destruct (mkdir_parents (Path.parent output) fs) as [[[]|e] fsm] eqn:Hmk.
  2:{ destruct Hfst as [-> Hfst]. rewrite Hfst in Hrun. by simplify_eq. }
  apply mkdir_parents_post in Hmk.
  pose proof (mkdir_post_is_dir _ _ _ _ Hmk) as Hdirs.
  pose proof (mkdir_post_is_file _ _ _ _ Hmk) as Hfiles.
  destruct Hmk as (Hparent & Hkeep & _).
  destruct (open_w output fsm) as [[[]|e] fso] eqn:Hop.
  - (* the first run wrote the output *)
    destruct Hfst as (err & -> & Hfst). rewrite Hfst in Hrun. simplify_eq.
    apply open_w_inv in Hop as (err' & Heq & Hwas).
    assert (¬ is_dir fsm output) as Hnd.
    { unfold is_dir. destruct Hwas as [Hw|(f & Hw & _)]; rewrite Hw; simpl; tauto. }
    set (B := String.concat "" _).
    set (fs1 := <[output := EFile (File B err)]> fsm).
    assert (sorted_files fs1 root (Str.lower ext) output gitignore_spec
            = sorted_files fs root (Str.lower ext) output gitignore_spec) as Hsame.
    { apply sorted_files_same; [done|..].
      - intros q Hq. by apply is_dir_insert_file, Hdirs.
      - intros p Hp. unfold fs1. by rewrite is_file_insert_ne, Hfiles. }
    assert (sorted_files fs1 root (Str.lower ext) output gitignore_spec ≠ []) as Hne1.
    { by rewrite Hsame. }
    pose proof (aggregate_files_run root ext output gitignore_spec fs1 Hne1) as Hsnd.
    rewrite mkdir_parents_is_dir in Hsnd.
    2:{ apply is_dir_insert_file; [done..|]. done. }
    assert (open_w output fs1 = (Ok tt, <[output := EFile (File "" err)]> fs1)) as Hop1.
    { unfold open_w, fs1. by rewrite lookup_insert_eq. }
    rewrite Hop1 in Hsnd. destruct Hsnd as (err1 & Herr & ->).
    assert (err1 = err) as ->.
    { apply (f_equal (λ m : filesystem, m !! output)) in Herr.
      rewrite !lookup_insert_eq in Herr. by simplify_eq. }
    rewrite Hsame. unfold fs1 at 2 3. rewrite insert_insert_eq.
    assert (file_block fs1 root <$> sorted_files fs root (Str.lower ext) output gitignore_spec
            = file_block fs root <$> sorted_files fs root (Str.lower ext) output gitignore_spec)
      as ->; [|done].
    apply Forall_fmap_ext, Forall_forall. intros p Hp.
    unfold fs1. rewrite file_block_insert_ne.
    2:{ intros <-. by apply output_not_in_files in Hp. }
    destruct (files_are_files _ _ _ _ _ _ Hp) as [f Hf].
    unfold file_block, content_of, read_text. rewrite Hf, (Hkeep _ _ Hf).
    by destruct (read_error f).
  - (* the output could not be opened *)
    destruct Hfst as [-> Hfst]. rewrite Hfst in Hrun. simplify_eq.
    assert (sorted_files fs1 root (Str.lower ext) output gitignore_spec
            = sorted_files fs root (Str.lower ext) output gitignore_spec) as Hsame.
    { apply sorted_files_same; [done|done|]. intros p _. apply Hfiles. }
    assert (sorted_files fs1 root (Str.lower ext) output gitignore_spec ≠ []) as Hne1.
    { by rewrite Hsame. }
    pose proof (aggregate_files_run root ext output gitignore_spec fs1 Hne1) as Hsnd.
    rewrite mkdir_parents_is_dir, Hop in Hsnd by done. by destruct Hsnd.
Qed.

Lemma aggregate_files_idempotent_witness :
  fs_wf Ex.scenario = true
  ∧ (aggregate_files Ex.root ".txt" ["r"; "out"; "all.txt"] Ex.ignore_spec Ex.scenario).1
    = Ok 4
  ∧ aggregate_files Ex.root ".txt" ["r"; "out"; "all.txt"] Ex.ignore_spec
      (aggregate_files Ex.root ".txt" ["r"; "out"; "all.txt"] Ex.ignore_spec Ex.scenario).2
    = (Ok 4,
       (aggregate_files Ex.root ".txt" ["r"; "out"; "all.txt"] Ex.ignore_spec Ex.scenario).2).
Proof.
  split; [by vm_compute|]. split; [by vm_compute|].
  apply (aggregate_files_idempotent _ _ _ _ Ex.scenario); [by vm_compute|].
  by apply run_pair; vm_compute.
Defined.

(** C7 (amended).  [aggregate_files] lowers the filter and compares it with
    the lowered suffix of each file, so that neither the case of the filter
    nor the case of the suffix has an effect: two filters that differ in
    case only give the same run, and a file that passes the other tests is
    aggregated exactly when its lowered suffix is the lowered filter.  The
    last part is stated for a filter and a suffix in ASCII, where [Str.lower]
    is Python's [str.lower].  The leading dot is added by [main] before the
    call, so that two arguments of [main] whose filters agree once dotted
    and lowered give the same run, among them an argument with and without
    its leading dot. *)
Theorem filter_normalised (root : path) (output : path)
    (gitignore_spec : option (string → bool)) (fs : filesystem) :
  (∀ ext, aggregate_files root ext output gitignore_spec fs
          = aggregate_files root (Str.lower ext) output gitignore_spec fs)
  ∧ (∀ e1 e2, Str.lower (main_ext e1) = Str.lower (main_ext e2) →
       aggregate_files root (main_ext e1) output gitignore_spec fs
       = aggregate_files root (main_ext e2) output gitignore_spec fs)
  ∧ (∀ e, main_ext ("." +:+ e) = "." +:+ e
          ∧ (Str.startswith "." e = false → main_ext e = "." +:+ e))
  ∧ (∀ ext p, Str.isascii ext = true → Str.isascii (Path.suffix p) = true →
       reachable fs root p → is_file fs p →
       matched gitignore_spec (Path.as_posix (Path.relative_to root p)) = false →
       p ≠ output →
       (p ∈ sorted_files fs root (Str.lower ext) output gitignore_spec
        ↔ Str.lower (Path.suffix p) = Str.lower ext)).
Proof.
  assert (∀ ext, aggregate_files root ext output gitignore_spec fs
          = aggregate_files root (Str.lower ext) output gitignore_spec fs) as Hlow.
  { intros ext. unfold aggregate_files. by rewrite lower_idemp. }
  split; [done|]. split; [|split].
  - intros e1 e2 Heq. by rewrite (Hlow (main_ext e1)), (Hlow (main_ext e2)), Heq.
  - intros e. split; [by destruct e|]. unfold main_ext. by intros ->.
  - intros ext p _ _ Hr Hf Hm Hne.
    rewrite elem_of_sorted_files, elem_of_rglob, keep_spec.
    split; [tauto|]. intros Hs. repeat split; try done.
    unfold is_file in Hf. by destruct (fs !! p).
Qed.

Lemma filter_normalised_witness :
  Str.lower (main_ext "TXT") = Str.lower (main_ext ".txt")
  ∧ aggregate_files Ex.root (main_ext "TXT") Ex.output Ex.ignore_spec Ex.scenario
    = aggregate_files Ex.root (main_ext ".txt") Ex.output Ex.ignore_spec Ex.scenario
  ∧ main_ext "txt" = ".txt"
  ∧ Path.suffix ["r"; "locked.TXT"] = ".TXT"
  ∧ (["r"; "locked.TXT"]
       ∈ sorted_files Ex.scenario Ex.root (Str.lower ".txt") Ex.output Ex.ignore_spec)
  ∧ (["r"; "a.txt"]
       ∈ sorted_files Ex.scenario Ex.root (Str.lower ".TXT") Ex.output Ex.ignore_spec)
  ∧ (["r"; "notes.md"]
       ∉ sorted_files Ex.scenario Ex.root (Str.lower ".TXT") Ex.output Ex.ignore_spec).
Proof.
  destruct (filter_normalised Ex.root Ex.output Ex.ignore_spec Ex.scenario)
    as (_ & Hsame & Hdot & Hfile).
  split; [done|]. split; [by apply Hsame|]. split; [by apply (Hdot "txt")|].
  split; [by vm_compute|]. split; [|split].
  - apply (Hfile ".txt" ["r"; "locked.TXT"]); by vm_compute.
  - apply (Hfile ".TXT" ["r"; "a.txt"]); by vm_compute.
  - intros Hin. apply (Hfile ".TXT" ["r"; "notes.md"]) in Hin; [|by vm_compute..].
    vm_compute in Hin. discriminate Hin.
Defined.

(** C7, as stated, fails: [aggregate_files] itself adds no dot, and called
    with the filter [txt] it finds no file where [.txt] finds three. *)
Lemma dotless_filter_matches_nothing :
  (aggregate_files Ex.root "txt" Ex.output Ex.ignore_spec Ex.scenario).1 = Ok 0
  ∧ (aggregate_files Ex.root ".txt" Ex.output Ex.ignore_spec Ex.scenario).1 = Ok 3
  ∧ ¬ dot_optional Ex.root Ex.output Ex.ignore_spec Ex.scenario.
Proof.
  assert ((aggregate_files Ex.root "txt" Ex.output Ex.ignore_spec Ex.scenario).1 = Ok 0)
    as Hbare by (by vm_compute).
  assert ((aggregate_files Ex.root ".txt" Ex.output Ex.ignore_spec Ex.scenario).1 = Ok 3)
    as Hdot by (by vm_compute).
  split; [done|]. split; [done|]. intros Hopt.
  specialize (Hopt "txt" eq_refl). change ("." +:+ "txt") with ".txt" in Hopt.
  rewrite Hopt, Hdot in Hbare. discriminate Hbare.
Qed.

(** C8 (amended).  The matcher is asked about each entry on its own: a file
    is aggregated exactly when it would be without a matcher and its own
    relative path is not matched.  Nothing is pruned below a matched
    directory; its descendants are left out when the matcher matches their
    relative paths too. *)
Theorem ignore_is_per_entry (fs : filesystem) (root : path) (ext : string)
    (output : path) (gitignore_spec : option (string → bool)) :
  (∀ p, p ∈ sorted_files fs root ext output gitignore_spec ↔
        p ∈ sorted_files fs root ext output None
        ∧ matched gitignore_spec (Path.as_posix (Path.relative_to root p)) = false)
  ∧ (∀ d,
       (∀ p, Path.below d p →
             matched gitignore_spec (Path.as_posix (Path.relative_to root p)) = true) →
       ∀ p, Path.below d p → p ∉ sorted_files fs root ext output gitignore_spec).
Proof.
  assert (∀ p, p ∈ sorted_files fs root ext output gitignore_spec ↔
        p ∈ sorted_files fs root ext output None
        ∧ matched gitignore_spec (Path.as_posix (Path.relative_to root p)) = false) as Hown.
  { intros p. rewrite !elem_of_sorted_files, !keep_spec. simpl. tauto. }
  split; [done|]. intros d Hmatch p Hp [_ Hin]%Hown.
  rewrite (Hmatch p Hp) in Hin. done.
Qed.

Lemma ignore_is_per_entry_witness :
  (∀ p, Path.below ["r"; "build"] p →
        matched Ex.build_tree (Path.as_posix (Path.relative_to Ex.root p)) = true)
  ∧ (["r"; "build"; "keep.txt"] ∈ sorted_files Ex.build Ex.root ".txt" Ex.output None)
  ∧ (["r"; "build"; "keep.txt"]
       ∉ sorted_files Ex.build Ex.root ".txt" Ex.output Ex.build_tree).
Proof.
  assert (∀ p, Path.below ["r"; "build"] p →
        matched Ex.build_tree (Path.as_posix (Path.relative_to Ex.root p)) = true) as Htree.
  { intros p [Ht Hl]%andb_True. apply bool_decide_unpack in Ht.
    destruct p as [|a [|b [|c rest]]]; try done. simpl in Ht. simplify_eq.
    apply (str_prefix_append "build/"). }
  destruct (ignore_is_per_entry Ex.build Ex.root ".txt" Ex.output Ex.build_tree)
    as [_ Hprune].
  split; [done|]. split.
  - assert (sorted_files Ex.build Ex.root ".txt" Ex.output None
            = [["r"; "build"; "keep.txt"]; ["r"; "build"; "other.txt"]]) as ->
      by (by vm_compute).
    apply list_elem_of_here.
  - by apply (Hprune ["r"; "build"] Htree).
Defined.

(** C8, as stated, fails: the matcher matches the directory [build], with
    and without a final slash, and the file [build/keep.txt] below it, which
    the matcher does not match, is aggregated. *)
Lemma ignored_directory_not_pruned :
  is_dir Ex.build ["r"; "build"] = true
  ∧ matched Ex.build_but_keep
      (Path.as_posix (Path.relative_to Ex.root ["r"; "build"])) = true
  ∧ matched Ex.build_but_keep "build/" = true
  ∧ Path.below ["r"; "build"] ["r"; "build"; "keep.txt"] = true
  ∧ matched Ex.build_but_keep
      (Path.as_posix (Path.relative_to Ex.root ["r"; "build"; "keep.txt"])) = false
  ∧ sorted_files Ex.build Ex.root (Str.lower ".txt") Ex.output Ex.build_but_keep
    = [["r"; "build"; "keep.txt"]]
  ∧ ¬ prunes Ex.build Ex.root (Str.lower ".txt") Ex.output Ex.build_but_keep.
Proof.
  assert (sorted_files Ex.build Ex.root (Str.lower ".txt") Ex.output Ex.build_but_keep
          = [["r"; "build"; "keep.txt"]]) as Hfiles by (by vm_compute).
  do 5 (split; [by vm_compute|]). split; [done|]. intros Hprune.
  apply (Hprune ["r"; "build"] ["r"; "build"; "keep.txt"]); [by vm_compute..|].
  rewrite Hfiles. apply list_elem_of_here.
Qed.

(** C9.  The filter is compared with the final dot-suffix of the name alone:
    a file named [.txt] has the empty suffix, and more generally a file whose
    whole name is the filter is never aggregated; a filter with two dots or
    more, such as [.tar.gz], matches no file, and the run returns 0 and
    changes nothing. *)
Theorem suffix_matching (fs : filesystem) (root : path) (output : path)
    (gitignore_spec : option (string → bool)) :
  (∀ p, Path.name p = ".txt" → Path.suffix p = "")
  ∧ (∀ ext p, ext ≠ "" → Path.name p = ext →
       p ∉ sorted_files fs root (Str.lower ext) output gitignore_spec)
  ∧ (∀ ext, 2 ≤ Str.count "." ext →
       sorted_files fs root (Str.lower ext) output gitignore_spec = []
       ∧ aggregate_files root ext output gitignore_spec fs = (Ok 0, fs)).
Proof.
  split; [|split].
  - intros p Hname. unfold Path.suffix. by rewrite Hname.
  - intros ext p Hext Hname [Hkeep _]%elem_of_sorted_files.
    apply keep_spec in Hkeep as (_ & _ & Hsuf & _).
    apply (f_equal String.length) in Hsuf. rewrite !str_length_lower in Hsuf.
    assert (Path.name p ≠ "") as Hne by congruence.
    apply path_suffix_length in Hne. rewrite Hname in Hne. lia.
  - intros ext Hdots.
    assert (sorted_files fs root (Str.lower ext) output gitignore_spec = []) as Hnil.
    { destruct (sorted_files fs root (Str.lower ext) output gitignore_spec)
        as [|p l] eqn:Hfiles; [done|].
      assert (p ∈ sorted_files fs root (Str.lower ext) output gitignore_spec) as Hp.
      { rewrite Hfiles. apply list_elem_of_here. }
      apply elem_of_sorted_files in Hp as [Hkeep _].
      apply keep_spec in Hkeep as (_ & _ & Hsuf & _).
      apply (f_equal (Str.count ".")) in Hsuf. rewrite !str_count_lower in Hsuf.
      pose proof (path_suffix_count p). lia. }
    split; [done|]. rewrite aggregate_files_unfold. cbv zeta. by rewrite Hnil.
Qed.

Lemma suffix_matching_witness :
  is_file Ex.dotfile ["r"; ".txt"] = true
  ∧ Path.suffix ["r"; ".txt"] = ""
  ∧ (["r"; ".txt"] ∉ sorted_files Ex.dotfile Ex.root (Str.lower ".txt") Ex.output None)
  ∧ is_file Ex.dotfile ["r"; "pkg.tar.gz"] = true
  ∧ aggregate_files Ex.root ".tar.gz" Ex.output None Ex.dotfile = (Ok 0, Ex.dotfile).
Proof.
  destruct (suffix_matching Ex.dotfile Ex.root Ex.output None) as (Hdot & Hname & Hmulti).
  split; [by vm_compute|]. split; [by apply Hdot|]. split; [by apply Hname|].
  split; [by vm_compute|]. apply Hmulti. vm_compute. lia.
Defined.

(** C10.  When the loop leaves [files] empty the run returns 0 and the file
    system is what it was: nothing is created, truncated or written. *)
Theorem no_files_no_effect (root : path) (ext : string) (output : path)
    (gitignore_spec : option (string → bool)) (fs : filesystem) :
  collect fs root (Str.lower ext) output gitignore_spec = [] →
  aggregate_files root ext output gitignore_spec fs = (Ok 0, fs).
Proof.
  intros Hnil%sorted_files_nil. rewrite aggregate_files_unfold. cbv zeta.
  by rewrite Hnil.
Qed.

Lemma no_files_no_effect_witness :
  (collect Ex.scenario Ex.root (Str.lower ".rst") ["r"; "out"; "all.rst"] Ex.ignore_spec = [])
  ∧ (aggregate_files Ex.root ".rst" ["r"; "out"; "all.rst"] Ex.ignore_spec Ex.scenario
     = (Ok 0, Ex.scenario))
  ∧ (Ex.scenario !! ["r"; "out"] = None).
Proof.
  assert (collect Ex.scenario Ex.root (Str.lower ".rst") ["r"; "out"; "all.rst"]
            Ex.ignore_spec = []) as Hnil by (by vm_compute).
  split; [done|]. split; [|by vm_compute].
  by apply (no_files_no_effect Ex.root ".rst" ["r"; "out"; "all.rst"]).
Defined.

(** * Further properties of [aggregate_files] *)

(** X1.  A run touches the output and nothing else, the directories it
    creates apart: every other path keeps its entry, or was absent and is
    now a directory on the way to the parent of the output. *)
Theorem run_footprint (root : path) (ext : string) (output : path)
    (gitignore_spec : option (string → bool)) (fs fs' : filesystem)
    (r : result nat) (q : path) :
  aggregate_files root ext output gitignore_spec fs = (r, fs') →
  q ≠ output →
  fs' !! q = fs !! q
  ∨ (fs !! q = None ∧ fs' !! q = Some EDir ∧ q `prefix_of` Path.parent output).
Proof.
  intros Hrun Hq.
  pose proof (aggregate_files_frame root ext output gitignore_spec fs fs' r q Hrun Hq)
    as Hframe.
  destruct (fs !! q) as [e|]; [by left|].
  destruct Hframe as [Hnone|[Hdir Hpre]]; [by left|by right].
Qed.

Lemma run_footprint_witness :
  (aggregate_files Ex.root ".txt" ["r"; "out"; "all.txt"] Ex.ignore_spec Ex.scenario).2
    !! ["r"; "a.txt"]
  = Ex.scenario !! ["r"; "a.txt"].
Proof.
  destruct (run_footprint Ex.root ".txt" ["r"; "out"; "all.txt"] Ex.ignore_spec
              Ex.scenario
              (aggregate_files Ex.root ".txt" ["r"; "out"; "all.txt"] Ex.ignore_spec
                 Ex.scenario).2
              (Ok 4) ["r"; "a.txt"]) as [Hsame|[Hnone _]].
  - by apply run_pair; vm_compute.
  - done.
  - exact Hsame.
  - vm_compute in Hnone. discriminate Hnone.
Defined.



Section writing.
Context (root : path) (ext : string) (output : path)
        (gitignore_spec : option (string → bool)).

Local Abbreviation files fs := (sorted_files fs root (Str.lower ext) output gitignore_spec).

(** X3.  On a well-formed file system, a run that has files to aggregate
    raises, and changes nothing, when the output has no place to go: when
    it is a directory, or when one of its proper ancestors is there and is
    not a directory.  A run that returns a count other than 0 was thus given
    an output that is no directory, below ancestors each absent or a
    directory. *)
Theorem run_blocked_raises (fs : filesystem) :
  fs_wf fs = true →
  (blocked fs output = true → files fs ≠ [] →
   ∃ e, aggregate_files root ext output gitignore_spec fs = (Raise e, fs))
  ∧ (∀ n fs', aggregate_files root ext output gitignore_spec fs = (Ok n, fs') →
       n ≠ 0 → blocked fs output = false).
Proof.
  intros Hwf.
  assert (∀ n fs', aggregate_files root ext output gitignore_spec fs = (Ok n, fs') →
            files fs ≠ [] → blocked fs output = false) as Hok.
  { intros n fs' Hrun Hne.
    destruct (aggregate_files_ok_place root ext output gitignore_spec fs fs' n Hwf Hne Hrun)
      as [Hnd Hanc].
    destruct (blocked fs output) eqn:Hb; [|done]. exfalso.
    apply blocked_spec in Hb as [Hd|(q & Hq & Hqo & [e He] & Hn)]; [done|].
    destruct (Hanc q Hq Hqo) as [Hnone|Hd]; [congruence|done]. }
  split.
  - intros Hb Hne.
    destruct (aggregate_files root ext output gitignore_spec fs) as [[n|e] fs'] eqn:Hrun.
    + rewrite (Hok n fs' eq_refl Hne) in Hb. discriminate Hb.
    + exists e. by rewrite (aggregate_files_failure _ _ _ _ _ _ _ Hwf Hrun).
  - intros n fs' Hrun Hn. apply (Hok n fs' Hrun). intros Hnil.
    rewrite aggregate_files_unfold in Hrun. cbv zeta in Hrun. rewrite Hnil in Hrun.
    by simplify_eq.
Qed.

(** X5.  The output is opened for writing, not for appending.  Let the
    output be a regular file in a directory.  When the run has a file to
    aggregate, what the output held before has no effect: two file systems
    that differ in the old content of the output alone give the same result
    and the same file system after the run.  When the run has no file to
    aggregate it returns 0 and the output is left as it was, old content
    included. *)
Theorem run_overwrites (fs : filesystem) (old new : string) (err : option string) :
  fs !! output = Some (EFile (File old err)) →
  is_dir fs (Path.parent output) →
  let fs2 := <[output := EFile (File new err)]> fs in
  (files fs ≠ [] →
   aggregate_files root ext output gitignore_spec fs2
   = aggregate_files root ext output gitignore_spec fs)
  ∧ (files fs = [] →
     aggregate_files root ext output gitignore_spec fs2 = (Ok 0, fs2)
     ∧ aggregate_files root ext output gitignore_spec fs = (Ok 0, fs)).
Proof.
  intros Ho Hpd fs2.
  assert (files fs2 = files fs) as Hsame by (by eapply sorted_files_insert_file).
  split.
  - intros Hne.
    assert (files fs2 ≠ []) as Hne2 by (by rewrite Hsame).
    pose proof (aggregate_files_run root ext output gitignore_spec fs Hne) as H1.
    pose proof (aggregate_files_run root ext output gitignore_spec fs2 Hne2) as H2.
    rewrite (mkdir_parents_is_dir _ _ Hpd), (open_w_file _ _ _ Ho) in H1.
    rewrite mkdir_parents_is_dir in H2.
    2:{ unfold fs2. by rewrite (is_dir_insert_file_eq _ _ _ (File old err)). }
    rewrite (open_w_file _ fs2 (File new err)) in H2 by apply lookup_insert_eq.
    destruct H1 as (e1 & He1 & ->). destruct H2 as (e2 & He2 & ->).
    assert (e1 = err) as ->.
    { apply (f_equal (λ m : filesystem, m !! output)) in He1.
      rewrite !lookup_insert_eq in He1. by simplify_eq. }
    assert (e2 = err) as ->.
    { apply (f_equal (λ m : filesystem, m !! output)) in He2.
      rewrite !lookup_insert_eq in He2. by simplify_eq. }
    rewrite Hsame. unfold fs2 at 2. rewrite insert_insert_eq.
    assert (file_block fs2 root <$> files fs = file_block fs root <$> files fs) as ->;
      [|done].
    apply Forall_fmap_ext, Forall_forall. intros p Hp. apply file_block_insert_ne.
    intros <-. by apply output_not_in_files in Hp.
  - intros Hnil. rewrite !aggregate_files_unfold. cbv zeta. by rewrite Hsame, Hnil.
Qed.

End writing.

Lemma run_blocked_raises_witness :
  fs_wf Ex.scenario = true
  ∧ blocked Ex.scenario ["r"; "a.txt"; "all.txt"] = true
  ∧ (∃ e, aggregate_files Ex.root ".txt" ["r"; "a.txt"; "all.txt"] Ex.ignore_spec
            Ex.scenario = (Raise e, Ex.scenario))
  ∧ blocked Ex.scenario ["r"; "out"; "all.txt"] = false.
Proof.
  destruct (run_blocked_raises Ex.root ".txt" ["r"; "a.txt"; "all.txt"] Ex.ignore_spec
              Ex.scenario) as [Hraise _]; [by vm_compute|].
  destruct (run_blocked_raises Ex.root ".txt" ["r"; "out"; "all.txt"] Ex.ignore_spec
              Ex.scenario) as [_ Hfree]; [by vm_compute|].
  split; [by vm_compute|]. split; [by vm_compute|]. split.
  - apply Hraise; by vm_compute.
  - apply (Hfree 4 (aggregate_files Ex.root ".txt" ["r"; "out"; "all.txt"] Ex.ignore_spec
                      Ex.scenario).2); [|done].
    by apply run_pair; vm_compute.
Defined.

Lemma run_overwrites_witness :
  aggregate_files Ex.root ".txt" Ex.output Ex.ignore_spec
    (<[Ex.output := EFile (File "something else" None)]> Ex.scenario)
  = aggregate_files Ex.root ".txt" Ex.output Ex.ignore_spec Ex.scenario
  ∧ aggregate_files Ex.root ".rst" Ex.output Ex.ignore_spec
      (<[Ex.output := EFile (File "something else" None)]> Ex.scenario)
    = (Ok 0, <[Ex.output := EFile (File "something else" None)]> Ex.scenario).
Proof.
  destruct (run_overwrites Ex.root ".txt" Ex.output Ex.ignore_spec Ex.scenario
              "old output" "something else" None) as [Hsame _]; [by vm_compute..|].
  destruct (run_overwrites Ex.root ".rst" Ex.output Ex.ignore_spec Ex.scenario
              "old output" "something else" None) as [_ Hkept]; [by vm_compute..|].
  split; [apply Hsame; by vm_compute|]. apply Hkept. by vm_compute.
Defined.

(** X4.  A run keeps the file system well formed: the directories it
    creates are created from the top down, and the output is written in a
    directory. *)
Theorem run_keeps_wf (root : path) (ext : string) (output : path)
    (gitignore_spec : option (string → bool)) (fs fs' : filesystem) (r : result nat) :
  fs_wf fs = true →
  aggregate_files root ext output gitignore_spec fs = (r, fs') →
  fs_wf fs' = true.
Proof. apply aggregate_files_wf. Qed.

Lemma run_keeps_wf_witness :
  fs_wf (aggregate_files Ex.root ".txt" ["r"; "out"; "all.txt"] Ex.ignore_spec
           Ex.scenario).2 = true.
Proof.
  apply (run_keeps_wf Ex.root ".txt" ["r"; "out"; "all.txt"] Ex.ignore_spec
           Ex.scenario _ (Ok 4)); [by vm_compute|].
  by apply run_pair; vm_compute.
Defined.

Section filters.
Context (root : path) (output : path) (gitignore_spec : option (string → bool)).

(** X6.  A non-empty filter can be the suffix of a file only when it is a
    dot followed by one character or more, none of them a dot.  With any
    other non-empty filter (no leading dot, a lone dot, a second dot) the
    list of files is empty, and the run returns 0 and changes nothing. *)
Theorem unmatchable_filter (ext : string) (fs : filesystem) :
  ext ≠ "" → suffix_like ext = false →
  sorted_files fs root (Str.lower ext) output gitignore_spec = []
  ∧ aggregate_files root ext output gitignore_spec fs = (Ok 0, fs).
Proof.
  intros Hext Hlike.
  assert (sorted_files fs root (Str.lower ext) output gitignore_spec = []) as Hnil.
  { destruct (sorted_files fs root (Str.lower ext) output gitignore_spec)
      as [|p l] eqn:Hfiles; [done|].
    assert (p ∈ sorted_files fs root (Str.lower ext) output gitignore_spec) as Hp.
    { rewrite Hfiles. apply list_elem_of_here. }
    apply elem_of_sorted_files in Hp as [Hkeep _].
    apply keep_spec in Hkeep as (_ & _ & Hsuf & _).
    destruct (suffix_shape p) as [Hemp|Hshape].
    - rewrite Hemp in Hsuf. by destruct ext.
    - rewrite <-suffix_like_lower, Hsuf, suffix_like_lower in Hshape. congruence. }
  split; [done|]. rewrite aggregate_files_unfold. cbv zeta. by rewrite Hnil.
Qed.

End filters.

Lemma unmatchable_filter_witness :
  suffix_like "txt" = false
  ∧ suffix_like ".txt" = true
  ∧ aggregate_files Ex.root "txt" Ex.output Ex.ignore_spec Ex.scenario
    = (Ok 0, Ex.scenario).
Proof.
  split; [done|]. split; [done|].
  by apply (unmatchable_filter Ex.root Ex.output Ex.ignore_spec "txt" Ex.scenario).
Defined.

(** * Properties of [main] *)



(** X8.  When the root argument is an absolute path, the directory the
    process is in has no effect on [main]: the output and the ignore file
    are absolute or joined to the root. *)
Theorem main_cwd_independent (from_lines : string → result (string → bool))
    (cwd1 cwd2 : path) (a : args) (fs : filesystem) :
  absolute (Pure.parse (arg_root a)) = true →
  main from_lines cwd1 a fs = main from_lines cwd2 a fs.
Proof.
  intros Habs. rewrite !main_unfold. cbv zeta.
  rewrite (main_gitignore_spec_locate from_lines cwd1 cwd2 _ (Pure.parse (arg_root a))).
  2:{ apply locate_absolute. by rewrite main_gitignore_path_div, absolute_div, Habs, orb_true_r. }
  rewrite (resolve_absolute cwd1 cwd2 (Pure.parse (arg_root a))) by done.
  rewrite (resolve_absolute cwd1 cwd2 (main_out_path _ _ _)); [done|].
  by rewrite main_out_path_div, absolute_div, Habs, orb_true_r.
Qed.

Lemma main_cwd_independent_witness :
  main ExMain.from_lines ["w"] ExMain.rooted ExMain.tree
  = main ExMain.from_lines ["elsewhere"] ExMain.rooted ExMain.tree.
Proof.
  by apply (main_cwd_independent ExMain.from_lines ["w"] ["elsewhere"] ExMain.rooted
              ExMain.tree).
Defined.

(** X9.  Without [-o] (or with an empty one), and with a filter that holds
    no slash, [main] on a well-formed file system changes one path at most:
    the file [aggregated<ext>] in the root directory, [<ext>] being the
    filter with its leading dot.  No directory is created and no other file
    is touched. *)
Theorem main_default_output (from_lines : string → result (string → bool))
    (cwd : path) (a : args) (fs fs' : filesystem) (r : result unit)
    (q : path) :
  fs_wf fs = true →
  arg_output a = None ∨ arg_output a = Some "" →
  Str.count "/" (arg_ext a) = 0 →
  main from_lines cwd a fs = (r, fs') →
  q ≠ Pure.resolve cwd (Pure.parse (arg_root a)) ++ ["aggregated" +:+ main_ext (arg_ext a)] →
  fs' !! q = fs !! q.
Proof.
  intros Hwf Hout Hext. rewrite main_unfold. cbv zeta.
  rewrite main_default_out_path by (by rewrite ?main_ext_count).
  destruct (main_gitignore_spec _ _ _ _ fs) as [[spec|e0] fs0] eqn:Hspec;
    apply main_gitignore_spec_state in Hspec as ->; [|by intros [= _ <-]].
  destruct (aggregate_files _ _ _ _ fs) as [rn fs1] eqn:Hrun.
  intros Hr Hq. assert (fs' = fs1) as -> by (by destruct rn; simplify_eq).
  eapply aggregate_files_beside_root; [done| |done..].
  by rewrite parent_snoc.
Qed.

Lemma main_default_output_witness :
  (main ExMain.from_lines ExMain.cwd ExMain.plain ExMain.tree).2
    !! ["w"; "r"; "aggregated.txt"]
  = Some (EFile (File ("a.txt" +:+ Str.newline +:+ "hello" +:+ Str.newline
                       +:+ separator +:+ Str.newline +:+ Str.newline) None))
  ∧ (main ExMain.from_lines ExMain.cwd ExMain.plain ExMain.tree).2
      !! ["w"; "r"; "skip.txt"]
    = ExMain.tree !! ["w"; "r"; "skip.txt"].
Proof.
  split; [by vm_compute|].
  apply (main_default_output ExMain.from_lines ExMain.cwd ExMain.plain ExMain.tree _
           (Ok tt)).
  - by vm_compute.
  - by left.
  - by vm_compute.
  - by apply run_pair; vm_compute.
  - intros Heq. vm_compute in Heq. discriminate Heq.
Defined.

(** X10.  On a well-formed file system a second call of [main] with the
    same arguments ends as the first did and changes nothing more, as long
    as the ignore file, when one is named, is reached without [..] and is
    not the output itself. *)
Theorem main_idempotent (from_lines : string → result (string → bool))
    (cwd : path) (a : args) (fs fs1 : filesystem) (r : result unit) :
  let root := Pure.parse (arg_root a) in
  let out_path := main_out_path root (main_ext (arg_ext a)) (arg_output a) in
  let gitignore_path := main_gitignore_path root (arg_gitignore a) in
  fs_wf fs = true →
  (arg_gitignore a ≠ "" →
   (".." ∉ parts gitignore_path)
   ∧ Pure.resolve cwd gitignore_path ≠ Pure.resolve cwd out_path) →
  main from_lines cwd a fs = (r, fs1) →
  main from_lines cwd a fs1 = (r, fs1).
Proof.
  intros root out_path gitignore_path Hwf Hg. rewrite !main_unfold. cbv zeta.
  fold root. fold out_path.
  destruct (main_gitignore_spec from_lines cwd root (arg_gitignore a) fs)
    as [rs fs0] eqn:Hspec.
  pose proof (main_gitignore_spec_state _ _ _ _ _ _ _ Hspec) as ->.
  destruct rs as [spec|e0].
  2:{ intros [= <- <-]. by rewrite Hspec. }
  destruct (aggregate_files _ _ _ _ fs) as [rn fs'] eqn:Hrun.
  intros Hr. assert (fs' = fs1) as -> by (by destruct rn; simplify_eq).
  pose proof (aggregate_files_wf _ _ _ _ _ _ _ Hwf Hrun) as Hwf1.
  assert (main_gitignore_spec from_lines cwd root (arg_gitignore a) fs1 = (Ok spec, fs1))
    as ->.
  { destruct (decide (arg_gitignore a = "")) as [Hempty|Hne].
    { rewrite Hempty in Hspec |- *. simpl in *. unfold ret in *. by simplify_eq. }
    destruct (Hg Hne) as [Hdots Hother]. fold gitignore_path in Hdots.
    rewrite main_gitignore_spec_plain in Hspec |- * by done.
    fold gitignore_path in Hspec |- *.
    rewrite (spec_of_frame from_lines fs fs1 (Pure.resolve cwd out_path)); [|done|].
    - injection Hspec as Hs. by rewrite Hs.
    - intros q Hq. by apply (aggregate_files_frame _ _ _ _ _ _ _ _ Hrun). }
  rewrite (aggregate_files_twice _ _ _ _ _ _ _ Hwf Hrun).
  by destruct rn.
Qed.

Lemma main_idempotent_witness :
  fs_wf ExMain.tree = true
  ∧ main ExMain.from_lines ExMain.cwd ExMain.plain
      (main ExMain.from_lines ExMain.cwd ExMain.plain ExMain.tree).2
    = (Ok tt, (main ExMain.from_lines ExMain.cwd ExMain.plain ExMain.tree).2).
Proof.
  split; [by vm_compute|].
  apply (main_idempotent ExMain.from_lines ExMain.cwd ExMain.plain ExMain.tree).
  - by vm_compute.
  - intros _. split.
    + intros Hin. vm_compute in Hin.
      apply elem_of_cons in Hin as [Heq|Hin]; [discriminate Heq|].
      apply elem_of_cons in Hin as [Heq|Hin]; [discriminate Heq|].
      by apply elem_of_nil in Hin.
    + intros Heq. vm_compute in Heq. discriminate Heq.
  - by apply run_pair; vm_compute.
Defined.

(** X11.  Naming a root directory is the same as starting in it: when the
    root argument holds no [..] and names a directory, [main] called from
    [cwd] does what [main] with the root [.] does when called from that
    directory.  A relative output and a relative ignore file are thus read
    from the root, not from [cwd]. *)
Theorem main_root_as_cwd (from_lines : string → result (string → bool))
    (cwd : path) (a : args) (fs : filesystem) :
  fs_wf fs = true →
  ".." ∉ parts (Pure.parse (arg_root a)) →
  is_dir fs (Pure.resolve cwd (Pure.parse (arg_root a))) →
  main from_lines cwd a fs
  = main from_lines (Pure.resolve cwd (Pure.parse (arg_root a))) (with_root a ".") fs.
Proof.
  intros Hwf Hdots Hdir. rewrite !main_unfold. cbv zeta. simpl.
  set (root := Pure.parse (arg_root a)) in *.
  rewrite (main_gitignore_spec_locate from_lines cwd (Pure.resolve cwd root) root (Pure.parse ".")).
  2:{ rewrite !main_gitignore_path_div. by apply locate_div_from. }
  rewrite !main_out_path_div, <-resolve_div_from.
  replace (Pure.resolve (Pure.resolve cwd root) (Pure.parse ".")) with (Pure.resolve cwd root)
    by (by rewrite parse_dot).
  done.
Qed.

Lemma main_root_as_cwd_witness :
  main ExMain.from_lines ["w"] ExMain.plain ExMain.tree
  = main ExMain.from_lines ["w"; "r"] (with_root ExMain.plain ".") ExMain.tree.
Proof.
  apply (main_root_as_cwd ExMain.from_lines ["w"] ExMain.plain ExMain.tree).
  - by vm_compute.
  - intros Hin. vm_compute in Hin.
    apply elem_of_cons in Hin as [Heq|Hin]; [discriminate Heq|].
    by apply elem_of_nil in Hin.
  - by vm_compute.
Defined.

(** X12.  At the command line the leading dot of the filter is optional:
    [-e txt] and [-e .txt] give the same call, the default name of the
    output included.  The case of the filter is without effect once the
    output is named with [-o]. *)
Theorem main_filter_normalised (from_lines : string → result (string → bool))
    (cwd : path) (a : args) (fs : filesystem) :
  (∀ e, Str.startswith "." e = false →
        main from_lines cwd (with_ext a e) fs
        = main from_lines cwd (with_ext a ("." +:+ e)) fs)
  ∧ (∀ e1 e2 c o, arg_output a = Some (String c o) →
        Str.lower (main_ext e1) = Str.lower (main_ext e2) →
        main from_lines cwd (with_ext a e1) fs = main from_lines cwd (with_ext a e2) fs).
Proof.
  split.
  - intros e He. unfold main. cbn [arg_ext arg_root arg_output arg_gitignore with_ext].
    destruct (main_ext_dot e) as [-> Hbare]. by rewrite Hbare.
  - intros e1 e2 c o Hout Hext. rewrite !main_unfold. cbv zeta.
    cbn [arg_ext arg_root arg_output arg_gitignore with_ext]. rewrite Hout.
    cbn [main_out_path].
    destruct (main_gitignore_spec _ _ _ _ fs) as [[spec|e] fs0]; [|done].
    rewrite (aggregate_files_lower _ (main_ext e1)), (aggregate_files_lower _ (main_ext e2)).
    by rewrite Hext.
Qed.

Lemma main_filter_normalised_witness :
  main ExMain.from_lines ExMain.cwd (with_ext ExMain.plain "txt") ExMain.tree
  = main ExMain.from_lines ExMain.cwd (with_ext ExMain.plain ".txt") ExMain.tree
  ∧ main ExMain.from_lines ExMain.cwd (with_ext ExMain.rooted "TXT") ExMain.tree
    = main ExMain.from_lines ExMain.cwd (with_ext ExMain.rooted ".txt") ExMain.tree.
Proof.
  destruct (main_filter_normalised ExMain.from_lines ExMain.cwd ExMain.plain ExMain.tree)
    as [Hdot _].
  destruct (main_filter_normalised ExMain.from_lines ExMain.cwd ExMain.rooted ExMain.tree)
    as [_ Hcase].
  split; [by apply Hdot|]. by apply (Hcase "TXT" ".txt" "o"%char "ut/all.txt").
Defined.
